(** * Data-entry tool: schema store, normaliser, validator, entry store, filter

    A shallow embedding of the TypeScript sources
    - [src/types] (FieldType, DataEntryField, EntryValues, RowEntry),
    - [src/app/page.tsx] (the handlers that own the field and entry lists),
    - [src/components/EntryForm.tsx] (getDefaultValue, normalizeValue, validate,
      handleSubmit),
    - [src/components/FieldDesigner.tsx] (ensureUniqueKey, handleAddField,
      FieldEditor.handleSave),
    - [src/components/EntriesTable.tsx] (filteredEntries),
    followed by the properties of the design document that were checked
    against them.

    Conventions of the embedding.
    - A JavaScript string is a [string]; a character stands for the UTF-16
      code unit of the same number (0..255).
    - A JavaScript number is a binary64 [float].
    - [JsValue] holds the values [Number()] and [String()] convert, which
      is what the form and the stores are taken to hold; [JsUnknown] adds
      the values on which a conversion raises, for [normalizeValue], whose
      argument is [unknown].
    - A plain object used as a dictionary ([EntryValues], [ValidationErrors])
      is a [gmap string _] of its own properties. Reading [obj[key]] gives
      the own property if there is one and goes on to [Object.prototype]
      otherwise ([js_get], [inherited]). Writing defines an own property,
      which is what [{ ...rest, [key]: v }] does for every key and what
      [obj[key] = v] does for every key but [__proto__].
    - React state is threaded explicitly: a handler is a function on
      [AppState]; the clock and the id generator are arguments. *)

From Stdlib Require Import String Ascii List ZArith Lia Bool.
From Stdlib Require Import Floats.PrimFloat Floats.FloatOps Floats.SpecFloat.
From stdpp Require Import base option gmap strings list pretty sorting.

Local Open Scope string_scope.
Local Open Scope list_scope.

(** ** JavaScript strings *)

Module JsString.

(** WhiteSpace and LineTerminator code units below 256: TAB, LF, VT, FF,
    CR, SP and NBSP. *)
Definition is_whitespace (c : ascii) : bool :=
  let n := nat_of_ascii c in
  (n =? 9)%nat || (n =? 10)%nat || (n =? 11)%nat || (n =? 12)%nat
  || (n =? 13)%nat || (n =? 32)%nat || (n =? 160)%nat.

Fixpoint trimStart (s : string) : string :=
  match s with
  | EmptyString => EmptyString
  | String c s' => if is_whitespace c then trimStart s' else s
  end.

Fixpoint trimEnd (s : string) : string :=
  match s with
  | EmptyString => EmptyString
  | String c s' =>
      match trimEnd s' with
      | EmptyString => if is_whitespace c then EmptyString else String c EmptyString
      | t => String c t
      end
  end.

(** [String.prototype.trim]. *)
Definition trim (s : string) : string := trimEnd (trimStart s).

(** Lower-casing of one code unit below 256: A-Z and the Latin-1 capitals
    (all of 192..222 but the multiplication sign 215) move up by 32. *)
Definition lower_char (c : ascii) : ascii :=
  let n := nat_of_ascii c in
  if ((65 <=? n)%nat && (n <=? 90)%nat)
     || ((192 <=? n)%nat && (n <=? 222)%nat && negb (n =? 215)%nat)
  then ascii_of_nat (n + 32)
  else c.

(** [String.prototype.toLowerCase]. *)
Fixpoint toLowerCase (s : string) : string :=
  match s with
  | EmptyString => EmptyString
  | String c s' => String (lower_char c) (toLowerCase s')
  end.

(** [String.prototype.split] with a one-character separator. *)
Fixpoint split (sep : ascii) (s : string) : list string :=
  match s with
  | EmptyString => [EmptyString]
  | String c s' =>
      if Ascii.eqb c sep then EmptyString :: split sep s'
      else match split sep s' with
           | w :: ws => String c w :: ws
           | [] => [String c EmptyString]
           end
  end.

(** [String.prototype.includes]: [needle] occurs in [hay]. *)
Fixpoint includes (hay needle : string) : bool :=
  String.prefix needle hay
  || match hay with
     | EmptyString => false
     | String _ hay' => includes hay' needle
     end.

(** The relational operator [<] on two strings: code-unit order. *)
Definition lt (s1 s2 : string) : bool := String.ltb s1 s2.

(** Truthiness of a string: every string but the empty one. *)
Definition truthy (s : string) : bool := negb (String.eqb s "").

End JsString.

(** ** JavaScript values *)

(** The values that reach the form and the stores: the primitives, and
    ordinary objects and arrays (what [JSON.parse] can yield), an object
    being known by the string its [toString] gives. *)
Inductive JsValue : Type :=
| VUndefined
| VNull
| VBool (b : bool)
| VNum (n : float)
| VStr (s : string)
| VObj (repr : string).

(** The operations of the language runtime that the program calls and that
    are not embedded here: the numeric reading of a string
    ([StringToNumber], behind [Number(...)]) and the printing of a number
    ([Number::toString], behind [String(...)]). *)
Class JsRuntime : Type := {
  StringToNumber : string → float;
  NumberToString : float → string
}.

(** [createSlug] of [@/lib/slug]: the library function is not part of the
    sources at hand and is taken as it comes. *)
Class SlugLib : Type := {
  createSlug : string → string
}.

Section Conversions.
Context `{JsRuntime}.

(** [Number(value)]. *)
Definition ToNumber (value : JsValue) : float :=
  match value with
  | VUndefined => nan
  | VNull => zero
  | VBool true => one
  | VBool false => zero
  | VNum n => n
  | VStr s => StringToNumber s
  | VObj repr => StringToNumber repr
  end.

(** [String(value)]. *)
Definition ToString (value : JsValue) : string :=
  match value with
  | VUndefined => "undefined"
  | VNull => "null"
  | VBool true => "true"
  | VBool false => "false"
  | VNum n => NumberToString n
  | VStr s => s
  | VObj repr => repr
  end.
End Conversions.

(** [Boolean(value)]: false for [undefined], [null], [false], [0], [-0],
    [NaN] and the empty string. *)
Definition ToBoolean (value : JsValue) : bool :=
  match value with
  | VUndefined => false
  | VNull => false
  | VBool b => b
  | VNum n => negb (is_zero n || is_nan n)
  | VStr s => JsString.truthy s
  | VObj _ => true
  end.

(** Any value of the language ([unknown]). The values of [JsValue] are the
    ones [Number()] and [String()] convert. Beyond them there are the
    symbols, on which [Number()] raises a TypeError while [String()] gives
    the descriptive string, and the objects that cannot be converted to a
    primitive (no callable [toString] or [valueOf] that returns one, as
    [Object.create(null)] or the object read from the JSON text
    [{"toString": 1}]), on which both raise. *)
Inductive JsUnknown : Type :=
| Convertible (value : JsValue)
| Symbol (description : string)
| Unconvertible.

(** How a call ends: with a result, or with a TypeError raised. *)
Inductive Completion (A : Type) : Type :=
| Returns (result : A)
| Throws.

Arguments Returns {A} result.
Arguments Throws {A}.

Section UnknownConversions.
Context `{JsRuntime}.

(** [Number(value)] on any value. *)
Definition ToNumber_unknown (value : JsUnknown) : Completion float :=
  match value with
  | Convertible v => Returns (ToNumber v)
  | Symbol _ => Throws
  | Unconvertible => Throws
  end.

(** [String(value)] on any value. *)
Definition ToString_unknown (value : JsUnknown) : Completion string :=
  match value with
  | Convertible v => Returns (ToString v)
  | Symbol description => Returns (String.append "Symbol(" (String.append description ")"))
  | Unconvertible => Throws
  end.
End UnknownConversions.

(** [Boolean(value)] on any value: symbols and objects are truthy. *)
Definition ToBoolean_unknown (value : JsUnknown) : bool :=
  match value with
  | Convertible v => ToBoolean v
  | Symbol _ => true
  | Unconvertible => true
  end.

(** [Number.isFinite] on a number. *)
Definition isFinite (n : float) : bool := is_finite n.

(** [a ?? b]. *)
Definition nullish (a b : JsValue) : JsValue :=
  match a with
  | VUndefined | VNull => b
  | _ => a
  end.

(** The members a plain object inherits from [Object.prototype], each
    known by the string its [toString] gives: the built-in methods, and the
    accessor [__proto__], which yields [Object.prototype] itself. *)
Definition object_prototype : list (string * JsValue) :=
  [ ("constructor", VObj "function Object() { [native code] }");
    ("__defineGetter__", VObj "function __defineGetter__() { [native code] }");
    ("__defineSetter__", VObj "function __defineSetter__() { [native code] }");
    ("hasOwnProperty", VObj "function hasOwnProperty() { [native code] }");
    ("__lookupGetter__", VObj "function __lookupGetter__() { [native code] }");
    ("__lookupSetter__", VObj "function __lookupSetter__() { [native code] }");
    ("isPrototypeOf", VObj "function isPrototypeOf() { [native code] }");
    ("propertyIsEnumerable",
     VObj "function propertyIsEnumerable() { [native code] }");
    ("toString", VObj "function toString() { [native code] }");
    ("valueOf", VObj "function valueOf() { [native code] }");
    ("__proto__", VObj "[object Object]");
    ("toLocaleString", VObj "function toLocaleString() { [native code] }") ].

(** What reading [key] gives on an object that has no own property [key]. *)
Definition inherited (key : string) : JsValue :=
  match List.find (λ member, String.eqb member.1 key) object_prototype with
  | Some member => member.2
  | None => VUndefined
  end.

(** [obj[key]] on a dictionary object. *)
Definition js_get (obj : gmap string JsValue) (key : string) : JsValue :=
  match obj !! key with
  | Some value => value
  | None => inherited key
  end.

(** ** The data model ([src/types]) *)

Inductive FieldType : Type :=
| text | number | date | time | email | phone | textarea | select | checkbox.

Global Instance FieldType_eq_dec : EqDecision FieldType.
Proof. solve_decision. Defined.

Record DataEntryField : Type := {
  f_id : string;
  f_label : string;
  f_key : string;
  f_type : FieldType;
  f_required : bool;
  f_placeholder : option string;
  f_helpText : option string;
  f_options : option (list string)
}.

(** [EntryValues]. *)
Abbreviation EntryValues := (gmap string JsValue).

Record RowEntry : Type := {
  e_id : string;
  e_createdAt : string;
  e_updatedAt : string;
  e_values : EntryValues
}.

(** [Partial<DataEntryField>]: a property is carried or not; the optional
    properties can be carried with the value [undefined] (the inner
    [None]), which is how [handleSave] clears them. *)
Record FieldPatch : Type := {
  p_id : option string;
  p_label : option string;
  p_key : option string;
  p_type : option FieldType;
  p_required : option bool;
  p_placeholder : option (option string);
  p_helpText : option (option string);
  p_options : option (option (list string))
}.

(** ** EntryForm.tsx *)

Module EntryForm.

Definition getDefaultValue (field : DataEntryField) : JsValue :=
  match f_type field with
  | checkbox => VBool false
  | _ => VStr ""
  end.

Section Normalizer.
Context `{JsRuntime}.

Definition normalizeValue (field : DataEntryField) (value : JsValue) : JsValue :=
  match value with
  | VUndefined | VNull => getDefaultValue field
  | _ =>
      if decide (f_type field = checkbox) then VBool (ToBoolean value)
      else if decide (f_type field = number) then
        let parsed := ToNumber value in
        if isFinite parsed then VNum parsed else VNull
      else
        match value with
        | VStr _ => value
        | VNum _ => value
        | VBool _ => value
        | _ => VStr (ToString value)
        end
  end.

(** [normalizeValue] on any value, with the TypeError that [Number(value)]
    and [String(value)] can raise; on the values of [JsValue] it is the
    function above. *)
Definition normalizeValue_unknown (field : DataEntryField) (value : JsUnknown)
    : Completion JsValue :=
  match value with
  | Convertible VUndefined | Convertible VNull => Returns (getDefaultValue field)
  | _ =>
      if decide (f_type field = checkbox)
      then Returns (VBool (ToBoolean_unknown value))
      else if decide (f_type field = number) then
        match ToNumber_unknown value with
        | Returns parsed =>
            Returns (if isFinite parsed then VNum parsed else VNull)
        | Throws => Throws
        end
      else
        match value with
        | Convertible (VStr s) => Returns (VStr s)
        | Convertible (VNum n) => Returns (VNum n)
        | Convertible (VBool b) => Returns (VBool b)
        | _ =>
            match ToString_unknown value with
            | Returns printed => Returns (VStr printed)
            | Throws => Throws
            end
        end
  end.
End Normalizer.

(** [ValidationErrors]. *)
Abbreviation ValidationErrors := (gmap string string).

(** The body of the [forEach] of [validate] for one field. *)
Definition validate_step (formValues : EntryValues)
    (nextErrors : ValidationErrors) (field : DataEntryField) : ValidationErrors :=
  let value := js_get formValues (f_key field) in
  if negb (f_required field) then nextErrors
  else if decide (f_type field = checkbox) then
    if negb (ToBoolean value)
    then <[f_key field := "This checkbox must be selected."]> nextErrors
    else nextErrors
  else
    match value with
    | VUndefined | VNull | VStr "" =>
        <[f_key field := "This field is required."]> nextErrors
    | _ => nextErrors
    end.

(** [nextErrors] at the end of [validate]. *)
Definition validate_errors (orderedFields : list DataEntryField)
    (formValues : EntryValues) : ValidationErrors :=
  fold_left (validate_step formValues) orderedFields ∅.

(** The boolean [validate] returns: [Object.keys(nextErrors).length === 0]. *)
Definition validate (orderedFields : list DataEntryField)
    (formValues : EntryValues) : bool :=
  bool_decide (validate_errors orderedFields formValues = ∅).

Section Form.
Context `{JsRuntime}.


Definition updateValue (field : DataEntryField) (value : JsValue)
    (formValues : EntryValues) : EntryValues :=
  <[f_key field := normalizeValue field value]> formValues.

(** What [handleSubmit] stores for one field. *)
Definition cleanValue (field : DataEntryField) (value : JsValue) : JsValue :=
  if decide (f_type field = number) then
    match value with
    | VStr "" | VUndefined | VNull => VNull
    | _ => VNum (ToNumber value)
    end
  else if decide (f_type field = checkbox) then VBool (ToBoolean value)
  else nullish value (VStr "").

Definition cleanedValues (orderedFields : list DataEntryField)
    (formValues : EntryValues) : EntryValues :=
  fold_left
    (λ cleaned field,
       <[f_key field := cleanValue field (js_get formValues (f_key field))]> cleaned)
    orderedFields ∅.

(** [handleSubmit]: the values handed to [onSubmit], if validation lets
    the submission through. *)
Definition handleSubmit (orderedFields : list DataEntryField)
    (formValues : EntryValues) : option EntryValues :=
  if validate orderedFields formValues
  then Some (cleanedValues orderedFields formValues)
  else None.


(** What the number input of [FieldInput] hands to [onChange] when its text
    is [text]: [event.target.value === "" ? "" : Number(event.target.value)]. *)
Definition numberInputChange (text : string) : JsValue :=
  if String.eqb text "" then VStr "" else VNum (StringToNumber text).

(** [numberDisplay], the text the number input shows for a form value. *)
Definition numberDisplay (value : JsValue) : string :=
  match value with
  | VStr "" | VUndefined | VNull => ""
  | _ => ToString value
  end.
End Form.

End EntryForm.

(** ** page.tsx *)

Module Page.

Record AppState : Type := {
  fields : list DataEntryField;
  entries : list RowEntry;
  editingEntryId : option string
}.

(** The ellipsis that ends the placeholder of the notes field (U+2026, one
    code unit of the JavaScript string) stands here as the three bytes of
    its UTF-8 form. *)
Definition DEFAULT_FIELDS : list DataEntryField :=
  [ {| f_id := "field-company"; f_label := "Company"; f_key := "company";
       f_type := text; f_required := true;
       f_placeholder := Some "Acme Incorporated";
       f_helpText := Some "Company or organization associated with this record.";
       f_options := None |};
    {| f_id := "field-contact"; f_label := "Primary contact";
       f_key := "primary-contact"; f_type := text; f_required := true;
       f_placeholder := Some "Jane Doe";
       f_helpText := Some "Full name of the main point of contact.";
       f_options := None |};
    {| f_id := "field-email"; f_label := "Email address"; f_key := "email";
       f_type := email; f_required := true;
       f_placeholder := Some "jane@example.com";
       f_helpText := None; f_options := None |};
    {| f_id := "field-status"; f_label := "Status"; f_key := "status";
       f_type := select; f_required := true; f_placeholder := None;
       f_helpText := Some "Track the current state of this record.";
       f_options := Some ["New"; "In Review"; "Approved"; "Archived"] |};
    {| f_id := "field-notes"; f_label := "Notes"; f_key := "notes";
       f_type := textarea; f_required := false;
       f_placeholder := Some "Add context, blockers, next steps…";
       f_helpText := None; f_options := None |} ].

Definition initialState : AppState :=
  {| fields := DEFAULT_FIELDS; entries := []; editingEntryId := None |}.

(** [entries.find((entry) => entry.id === editingEntryId) ?? null]. *)
Definition editingEntry (st : AppState) : option RowEntry :=
  match editingEntryId st with
  | Some target => List.find (λ entry, String.eqb (e_id entry) target) (entries st)
  | None => None
  end.

Definition handleAddField (field : DataEntryField) (st : AppState) : AppState :=
  {| fields := fields st ++ [field];
     entries := entries st;
     editingEntryId := editingEntryId st |}.

(** [{ ...field, ...patch }]. *)
Definition applyPatch (field : DataEntryField) (patch : FieldPatch) : DataEntryField :=
  {| f_id := default (f_id field) (p_id patch);
     f_label := default (f_label field) (p_label patch);
     f_key := default (f_key field) (p_key patch);
     f_type := default (f_type field) (p_type patch);
     f_required := default (f_required field) (p_required patch);
     f_placeholder := default (f_placeholder field) (p_placeholder patch);
     f_helpText := default (f_helpText field) (p_helpText patch);
     f_options := default (f_options field) (p_options patch) |}.

(** The entry rewritten by the cascade of [handleUpdateField]:
    [const { [target.key]: oldValue, ...rest } = entry.values] and
    [{ ...rest, [patch.key]: oldValue ?? "" }]. *)
Definition migrateEntry (oldKey newKey : string) (entry : RowEntry) : RowEntry :=
  let oldValue := js_get (e_values entry) oldKey in
  let rest := delete oldKey (e_values entry) in
  {| e_id := e_id entry;
     e_createdAt := e_createdAt entry;
     e_updatedAt := e_updatedAt entry;
     e_values := <[newKey := nullish oldValue (VStr "")]> rest |}.

Definition handleUpdateField (fieldId : string) (patch : FieldPatch)
    (st : AppState) : AppState :=
  match List.find (λ field, String.eqb (f_id field) fieldId) (fields st) with
  | None => st
  | Some target =>
      let nextEntries :=
        match p_key patch with
        | Some newKey =>
            if JsString.truthy newKey && negb (String.eqb newKey (f_key target))
            then map (migrateEntry (f_key target) newKey) (entries st)
            else entries st
        | None => entries st
        end in
      {| fields :=
           map (λ field,
                  if String.eqb (f_id field) fieldId
                  then applyPatch field patch else field)
               (fields st);
         entries := nextEntries;
         editingEntryId := editingEntryId st |}
  end.

(** The entry rewritten by the cascade of [handleDeleteField]. *)
Definition dropKey (key : string) (entry : RowEntry) : RowEntry :=
  {| e_id := e_id entry;
     e_createdAt := e_createdAt entry;
     e_updatedAt := e_updatedAt entry;
     e_values := delete key (e_values entry) |}.

Definition handleDeleteField (fieldId : string) (st : AppState) : AppState :=
  match List.find (λ item, String.eqb (f_id item) fieldId) (fields st) with
  | None => st
  | Some fieldToDelete =>
      {| fields :=
           List.filter (λ item, negb (String.eqb (f_id item) fieldId)) (fields st);
         entries := map (dropKey (f_key fieldToDelete)) (entries st);
         editingEntryId := editingEntryId st |}
  end.

(** [newId] is what [createId("entry")] returns and [now] what
    [new Date().toISOString()] returns. *)
Definition handleCreateEntry (newId now : string) (values : EntryValues)
    (st : AppState) : AppState :=
  let entry := {| e_id := newId; e_createdAt := now; e_updatedAt := now;
                  e_values := values |} in
  {| fields := fields st;
     entries := entry :: entries st;
     editingEntryId := None |}.

Definition handleUpdateEntry (now : string) (values : EntryValues)
    (st : AppState) : AppState :=
  match editingEntry st with
  | None => st
  | Some target =>
      {| fields := fields st;
         entries :=
           map (λ entry,
                  if String.eqb (e_id entry) (e_id target)
                  then {| e_id := e_id entry;
                          e_createdAt := e_createdAt entry;
                          e_updatedAt := now;
                          e_values := values |}
                  else entry)
               (entries st);
         editingEntryId := None |}
  end.

Definition handleSubmitEntry (newId now : string) (values : EntryValues)
    (st : AppState) : AppState :=
  match editingEntry st with
  | Some _ => handleUpdateEntry now values st
  | None => handleCreateEntry newId now values st
  end.

(** [confirmed] is the answer of [window.confirm]. *)
Definition handleDeleteEntry (confirmed : bool) (entry : RowEntry)
    (st : AppState) : AppState :=
  if negb confirmed then st
  else
    {| fields := fields st;
       entries :=
         List.filter (λ item, negb (String.eqb (e_id item) (e_id entry))) (entries st);
       editingEntryId :=
         match editingEntryId st with
         | Some target => if String.eqb target (e_id entry) then None else Some target
         | None => None
         end |}.

Definition handleDuplicateEntry (newId now : string) (entry : RowEntry)
    (st : AppState) : AppState :=
  let copy := {| e_id := newId; e_createdAt := now; e_updatedAt := now;
                 e_values := e_values entry |} in
  {| fields := fields st;
     entries := copy :: entries st;
     editingEntryId := editingEntryId st |}.

Definition handleClearEntries (confirmed : bool) (st : AppState) : AppState :=
  match entries st with
  | [] => st
  | _ :: _ =>
      if negb confirmed then st
      else {| fields := fields st; entries := []; editingEntryId := None |}
  end.

(** [onEdit] of the table and [onCancelEdit] of the form. *)
Definition selectEntry (entry : RowEntry) (st : AppState) : AppState :=
  {| fields := fields st; entries := entries st;
     editingEntryId := Some (e_id entry) |}.

Definition cancelEdit (st : AppState) : AppState :=
  {| fields := fields st; entries := entries st; editingEntryId := None |}.

(** What the user can do on the page. *)
Inductive Action : Type :=
| AddField (field : DataEntryField)
| UpdateField (fieldId : string) (patch : FieldPatch)
| DeleteField (fieldId : string)
| SubmitEntry (newId now : string) (values : EntryValues)
| DeleteEntry (confirmed : bool) (entry : RowEntry)
| DuplicateEntry (newId now : string) (entry : RowEntry)
| ClearEntries (confirmed : bool)
| EditEntry (entry : RowEntry)
| CancelEdit.

Definition step (action : Action) (st : AppState) : AppState :=
  match action with
  | AddField field => handleAddField field st
  | UpdateField fieldId patch => handleUpdateField fieldId patch st
  | DeleteField fieldId => handleDeleteField fieldId st
  | SubmitEntry newId now values => handleSubmitEntry newId now values st
  | DeleteEntry confirmed entry => handleDeleteEntry confirmed entry st
  | DuplicateEntry newId now entry => handleDuplicateEntry newId now entry st
  | ClearEntries confirmed => handleClearEntries confirmed st
  | EditEntry entry => selectEntry entry st
  | CancelEdit => cancelEdit st
  end.

(** The table offers its buttons on the rows it shows: an entry can be
    picked for editing only if it is in the list. *)
Definition enabled (action : Action) (st : AppState) : Prop :=
  match action with
  | EditEntry entry => entry ∈ entries st
  | _ => True
  end.

(** The states the page can reach from [start]. *)
Inductive reachable (start : AppState) : AppState → Prop :=
| reachable_start : reachable start start
| reachable_step st action :
    reachable start st → enabled action st → reachable start (step action st).

End Page.

(** ** FieldDesigner.tsx *)

Module FieldDesigner.

Record DraftField : Type := {
  d_label : string;
  d_type : FieldType;
  d_required : bool;
  d_placeholder : string;
  d_helpText : string;
  d_options : string
}.

Definition DEFAULT_DRAFT : DraftField :=
  {| d_label := ""; d_type := text; d_required := false;
     d_placeholder := ""; d_helpText := ""; d_options := "" |}.

(** [existingKeys.includes(key)]. *)
Definition array_includes (existingKeys : list string) (key : string) : bool :=
  bool_decide (key ∈ existingKeys).

(** The candidate [`${baseKey}-${counter}`]. *)
Definition candidateKey (baseKey : string) (counter : N) : string :=
  baseKey +:+ "-" +:+ pretty counter.

(** The [while] loop of [ensureUniqueKey], entered with [counter] and run
    for at most [fuel] tests of its condition. *)
Fixpoint ensureUniqueKey_loop (fuel : nat) (baseKey : string)
    (existingKeys : list string) (counter : N) : option string :=
  match fuel with
  | O => None
  | S fuel' =>
      let candidate := candidateKey baseKey counter in
      if array_includes existingKeys candidate
      then ensureUniqueKey_loop fuel' baseKey existingKeys (counter + 1)
      else Some candidate
  end.

(** [ensureUniqueKey], its loop given one more test than there are keys. *)
Definition ensureUniqueKey (baseKey : string) (existingKeys : list string)
    : option string :=
  if negb (array_includes existingKeys baseKey) then Some baseKey
  else ensureUniqueKey_loop (S (length existingKeys)) baseKey existingKeys 1.

(** [text.split(",").map((item) => item.trim()).filter(Boolean)]. *)
Definition parseOptions (text : string) : list string :=
  List.filter JsString.truthy (map JsString.trim (JsString.split "," text)).

(** [s || undefined] on a string. *)
Definition orUndefined (s : string) : option string :=
  if JsString.truthy s then Some s else None.

Definition canSubmit (draft : DraftField) : bool :=
  (0 <? String.length (JsString.trim (d_label draft)))%nat.

Section AddField.
Context `{SlugLib}.

(** The key [handleAddField] derives for [draft] over [fields]. *)
Definition deriveKey (draft : DraftField) (fields : list DataEntryField)
    : option string :=
  let existingKeys := map f_key fields in
  let slug := createSlug (d_label draft) in
  let baseKey :=
    if JsString.truthy slug then slug
    else "field-" +:+ pretty (length fields + 1)%nat in
  ensureUniqueKey baseKey existingKeys.

(** [handleAddField] with [onAdd] bound to the page's handler; [newId] is
    what [createId("field")] returns. [None] only if the loop of
    [ensureUniqueKey] were cut short. *)
Definition handleAddField (draft : DraftField) (newId : string)
    (st : Page.AppState) : option Page.AppState :=
  if negb (canSubmit draft) then Some st
  else
    key ← deriveKey draft (Page.fields st);
    let options :=
      if decide (d_type draft = select)
      then Some (parseOptions (d_options draft))
      else None in
    let field :=
      {| f_id := newId;
         f_label := JsString.trim (d_label draft);
         f_key := key;
         f_type := d_type draft;
         f_required := d_required draft;
         f_placeholder := orUndefined (JsString.trim (d_placeholder draft));
         f_helpText := orUndefined (JsString.trim (d_helpText draft));
         f_options := options |} in
    Some (Page.handleAddField field st).

(** A run of additions, each one seeing the fields left by the one before. *)
Fixpoint addFields (drafts : list (DraftField * string)) (st : Page.AppState)
    : option Page.AppState :=
  match drafts with
  | [] => Some st
  | (draft, newId) :: rest =>
      st' ← handleAddField draft newId st;
      addFields rest st'
  end.
End AddField.

(** The local state of [FieldEditor]. *)
Record EditorState : Type := {
  localLabel : string;
  localPlaceholder : string;
  localHelpText : string;
  localRequired : bool;
  localOptions : string
}.

(** The initial local state: the [useState] initialisers. *)
Definition openEditor (field : DataEntryField) : EditorState :=
  {| localLabel := f_label field;
     localPlaceholder := default "" (f_placeholder field);
     localHelpText := default "" (f_helpText field);
     localRequired := f_required field;
     localOptions :=
       match f_options field with
       | Some opts => String.concat ", " opts
       | None => ""
       end |}.

(** The patch [handleSave] hands to [onUpdate]. *)
Definition handleSave (field : DataEntryField) (local : EditorState) : FieldPatch :=
  {| p_id := None;
     p_label :=
       Some (if JsString.truthy (JsString.trim (localLabel local))
             then JsString.trim (localLabel local) else f_label field);
     p_key := None;
     p_type := None;
     p_required := Some (localRequired local);
     p_placeholder := Some (orUndefined (JsString.trim (localPlaceholder local)));
     p_helpText := Some (orUndefined (JsString.trim (localHelpText local)));
     p_options :=
       Some (if decide (f_type field = select)
             then Some (parseOptions (localOptions local))
             else f_options field) |}.

(** "Save changes" on the editor of [field]: [onUpdate(field.id, patch)]. *)
Definition saveField (field : DataEntryField) (local : EditorState)
    (st : Page.AppState) : Page.AppState :=
  Page.handleUpdateField (f_id field) (handleSave field local) st.

(** The designer's own state next to the page's: the id of the field whose
    editor is open. The "Edit"/"Close" button of a field:
    [setEditingFieldId(editMode ? null : field.id)]. *)
Definition toggleEdit (field : DataEntryField) (editingFieldId : option string)
    : option string :=
  match editingFieldId with
  | Some open => if String.eqb open (f_id field) then None else Some (f_id field)
  | None => Some (f_id field)
  end.

(** The designer's [handleDeleteField]: [onDelete(fieldId)], and the editor
    is closed if it was open on that field. *)
Definition handleDeleteField (fieldId : string)
    (editingFieldId : option string) (st : Page.AppState)
    : option string * Page.AppState :=
  (match editingFieldId with
   | Some open => if String.eqb open fieldId then None else Some open
   | None => None
   end,
   Page.handleDeleteField fieldId st).

End FieldDesigner.

(** ** EntriesTable.tsx *)

Module EntriesTable.

(** The comparator handed to [sort]:
    [(a, b) => (a.updatedAt < b.updatedAt ? 1 : -1)]. *)
Definition byUpdatedAt (a b : RowEntry) : Z :=
  if JsString.lt (e_updatedAt a) (e_updatedAt b) then 1%Z else (-1)%Z.

(** [Array.prototype.sort], embedded as a straight insertion sort with the
    calling convention of V8's insertion step: the elements are placed in
    turn, the element being placed is the first argument of [comparefn],
    and it goes in front of the first element for which the result is
    negative. For a consistent [comparefn] this is the stable sort that
    ECMAScript prescribes ([array_sort_in_order], [array_sort_keeps_ties]);
    for any other [comparefn] ECMAScript leaves the order to the engine
    (compare [array_sort_late]). *)
Fixpoint sort_insert {A : Type} (comparefn : A → A → Z) (pivot : A)
    (sorted : list A) : list A :=
  match sorted with
  | [] => [pivot]
  | y :: rest =>
      if (comparefn pivot y <? 0)%Z then pivot :: sorted
      else y :: sort_insert comparefn pivot rest
  end.

Definition array_sort {A : Type} (comparefn : A → A → Z) (l : list A) : list A :=
  fold_left (λ sorted pivot, sort_insert comparefn pivot sorted) l [].

Section Filter.
Context `{JsRuntime}.

(** The predicate handed to [filter]. *)
Definition matchesLookup (fields : list DataEntryField) (lookup : string)
    (entry : RowEntry) : bool :=
  let baseMatch :=
    JsString.includes (JsString.toLowerCase (e_id entry)) lookup
    || JsString.includes (JsString.toLowerCase (e_createdAt entry)) lookup
    || JsString.includes (JsString.toLowerCase (e_updatedAt entry)) lookup in
  if baseMatch then true
  else
    existsb
      (λ field,
         let value := js_get (e_values entry) (f_key field) in
         match value with
         | VUndefined | VNull => false
         | _ => JsString.includes (JsString.toLowerCase (ToString value)) lookup
         end)
      fields.

Definition filteredEntries (fields : list DataEntryField)
    (entries : list RowEntry) (filterText : string) : list RowEntry :=
  let clone := array_sort byUpdatedAt entries in
  if negb (JsString.truthy (JsString.trim filterText)) then clone
  else
    let lookup := JsString.toLowerCase (JsString.trim filterText) in
    List.filter (matchesLookup fields lookup) clone.

(** What [CellValue] renders: a dash, the Yes/No badge of a checkbox, or
    a text. *)
Inductive Cell : Type :=
| Dash
| Badge (yes : bool)
| Text (content : string).

Definition CellValue (fieldType : FieldType) (value : JsValue) : Cell :=
  match value with
  | VNull | VUndefined | VStr "" => Dash
  | _ =>
      if decide (fieldType = checkbox) then Badge (ToBoolean value)
      else Text (ToString value)
  end.
End Filter.

End EntriesTable.

(** ** useLocalStorage.ts *)

Module UseLocalStorage.

(** The browser storage as the hook meets it: the string kept under the
    key, if any, and whether [getItem] and [setItem] go through or throw. *)
Record Storage : Type := {
  stored : option string;
  readable : bool;
  writable : bool
}.

Section Hook.
Context {T : Type}.

(** [JSON.parse(item) as T], [None] when it throws, and [JSON.stringify]. *)
Variable parse : string → option T.
Variable stringify : T → string.

(** The two [useState] cells. *)
Record HookState : Type := {
  value : T;
  hydrated : bool
}.

Definition initialHook (initialValue : T) : HookState :=
  {| value := initialValue; hydrated := false |}.

(** The first effect, run on the state of the render it belongs to. *)
Definition hydrateEffect (storage : Storage) (st : HookState) : HookState :=
  if hydrated st then st
  else
    {| value :=
         if readable storage then
           match stored storage with
           | Some item =>
               if JsString.truthy item then
                 match parse item with
                 | Some parsed => parsed
                 | None => value st
                 end
               else value st
           | None => value st
           end
         else value st;
       hydrated := true |}.

(** The second effect, run on the state of the same render. *)
Definition persistEffect (st : HookState) (storage : Storage) : Storage :=
  if hydrated st then
    if writable storage
    then {| stored := Some (stringify (value st));
            readable := readable storage;
            writable := writable storage |}
    else storage
  else storage.

(** The effects of one render: both see the state of that render; the
    state they set is the state of the next. *)
Definition commit (st : HookState) (storage : Storage) : HookState * Storage :=
  (hydrateEffect storage st, persistEffect st storage).

(** [setValue] as the page calls it, with an updater. *)
Definition setValue (updater : T → T) (st : HookState) : HookState :=
  {| value := updater (value st); hydrated := hydrated st |}.
End Hook.

End UseLocalStorage.

(** ** A runtime and a slug function to run examples on *)

Module Sample.

Definition digit_value (c : ascii) : option float :=
  match c with
  | "0"%char => Some 0%float | "1"%char => Some 1%float
  | "2"%char => Some 2%float | "3"%char => Some 3%float
  | "4"%char => Some 4%float | "5"%char => Some 5%float
  | "6"%char => Some 6%float | "7"%char => Some 7%float
  | "8"%char => Some 8%float | "9"%char => Some 9%float
  | _ => None
  end.

Fixpoint read_digits (acc : float) (s : string) : float :=
  match s with
  | EmptyString => acc
  | String c s' =>
      match digit_value c with
      | Some d => read_digits (acc * 10 + d)%float s'
      | None => nan
      end
  end.

(** Reads a blank string as 0, [Infinity] with an optional sign, and a
    short run of decimal digits with an optional sign, as JavaScript does;
    other numeric literals are not attempted and read as [NaN]. *)
Definition string_to_number (s : string) : float :=
  match JsString.trim s with
  | EmptyString => zero
  | "Infinity" | "+Infinity" => infinity
  | "-Infinity" => neg_infinity
  | String "-" (String c rest) => (- read_digits zero (String c rest))%float
  | String "+" (String c rest) => read_digits zero (String c rest)
  | t => read_digits zero t
  end.

(** Prints [NaN], the infinities and the integers as JavaScript does; of a
    number with a fractional part only the integer part is printed. *)
Definition number_to_string (n : float) : string :=
  match Prim2SF n with
  | S754_nan => "NaN"
  | S754_infinity false => "Infinity"
  | S754_infinity true => "-Infinity"
  | S754_zero _ => "0"
  | S754_finite sign m e =>
      let magnitude :=
        if (0 <=? e)%Z then (Z.pos m * 2 ^ e)%Z else (Z.pos m / 2 ^ (- e))%Z in
      if (magnitude =? 0)%Z then "0"
      else (if sign then "-" else "") +:+ pretty magnitude
  end.

Definition runtime : JsRuntime :=
  {| StringToNumber := string_to_number; NumberToString := number_to_string |}.

Definition is_alnum (c : ascii) : bool :=
  let n := nat_of_ascii c in
  ((48 <=? n)%nat && (n <=? 57)%nat) || ((97 <=? n)%nat && (n <=? 122)%nat).

Fixpoint slug_go (started pending : bool) (s : string) : string :=
  match s with
  | EmptyString => EmptyString
  | String c s' =>
      if is_alnum c then
        if started && pending
        then String "-" (String c (slug_go true false s'))
        else String c (slug_go true false s')
      else slug_go started true s'
  end.

(** A slug function of the usual kind: lower case, every run of other
    characters between two alphanumeric ones turned into one hyphen. *)
Definition slugify (label : string) : string :=
  slug_go false false (JsString.toLowerCase label).

Definition slugLib : SlugLib := {| createSlug := slugify |}.

(** Fields, entries and drafts for the examples. *)
Definition ageField : DataEntryField :=
  {| f_id := "field-age"; f_label := "Age"; f_key := "age"; f_type := number;
     f_required := false; f_placeholder := None; f_helpText := None;
     f_options := None |}.

Definition emailField : DataEntryField :=
  {| f_id := "field-email"; f_label := "Email address"; f_key := "email";
     f_type := email; f_required := true;
     f_placeholder := Some "jane@example.com";
     f_helpText := None; f_options := None |}.

Definition statusField : DataEntryField :=
  {| f_id := "field-status"; f_label := "Status"; f_key := "status";
     f_type := select; f_required := true; f_placeholder := None;
     f_helpText := Some "Track the current state of this record.";
     f_options := Some ["New"; "In Review"; "Approved"; "Archived"] |}.

Definition subscribedField : DataEntryField :=
  {| f_id := "field-subscribed"; f_label := "Subscribed"; f_key := "subscribed";
     f_type := checkbox; f_required := false; f_placeholder := None;
     f_helpText := None; f_options := None |}.

(** A patch that carries a key and nothing else. *)
Definition renameKey (newKey : string) : FieldPatch :=
  {| p_id := None; p_label := None; p_key := Some newKey; p_type := None;
     p_required := None; p_placeholder := None; p_helpText := None;
     p_options := None |}.

Definition emailEntry : RowEntry :=
  {| e_id := "entry-1"; e_createdAt := "2024-05-01T10:00:00.000Z";
     e_updatedAt := "2024-05-01T10:00:00.000Z";
     e_values := {["email" := VStr "a@b.com"]} |}.

(** An entry saved with the number field left empty. *)
Definition ageEntry : RowEntry :=
  {| e_id := "entry-2"; e_createdAt := "2024-05-01T10:00:00.000Z";
     e_updatedAt := "2024-05-01T10:00:00.000Z";
     e_values := {["age" := VNull]} |}.

(** The default fields with one entry. *)
Definition emailState : Page.AppState :=
  {| Page.fields := Page.DEFAULT_FIELDS; Page.entries := [emailEntry];
     Page.editingEntryId := Some "entry-1" |}.

Definition ageState : Page.AppState :=
  {| Page.fields := [ageField]; Page.entries := [ageEntry];
     Page.editingEntryId := None |}.

(** A checkbox field added after the entry was saved. *)
Definition subscribedState : Page.AppState :=
  {| Page.fields := [emailField; subscribedField]; Page.entries := [emailEntry];
     Page.editingEntryId := None |}.

Definition emptyState : Page.AppState :=
  {| Page.fields := []; Page.entries := []; Page.editingEntryId := None |}.

Definition statusDraft (optionsText : string) : FieldDesigner.DraftField :=
  {| FieldDesigner.d_label := "Status"; FieldDesigner.d_type := select;
     FieldDesigner.d_required := true; FieldDesigner.d_placeholder := "";
     FieldDesigner.d_helpText := ""; FieldDesigner.d_options := optionsText |}.

Definition symbolsDraft : FieldDesigner.DraftField :=
  {| FieldDesigner.d_label := "!!!"; FieldDesigner.d_type := text;
     FieldDesigner.d_required := false; FieldDesigner.d_placeholder := "";
     FieldDesigner.d_helpText := ""; FieldDesigner.d_options := "" |}.

(** Two entries updated in the same millisecond. *)
Definition firstEntry : RowEntry :=
  {| e_id := "entry-a"; e_createdAt := "2024-05-01T10:00:00.000Z";
     e_updatedAt := "2024-05-02T08:30:00.000Z";
     e_values := {["company" := VStr "Acme"]} |}.

Definition secondEntry : RowEntry :=
  {| e_id := "entry-b"; e_createdAt := "2024-05-01T11:00:00.000Z";
     e_updatedAt := "2024-05-02T08:30:00.000Z";
     e_values := {["company" := VStr "Globex"]} |}.

(** The drafts of the example: the label of a default field twice, then a
    label with an empty slug. *)
Definition collidingDrafts : list (FieldDesigner.DraftField * string) :=
  [ (statusDraft "Open, Closed", "field-6");
    (statusDraft "", "field-7");
    (symbolsDraft, "field-8") ].

(** A value type for the storage hook: a boolean, with its JSON text. *)
Definition stringifyBool (b : bool) : string := if b then "true" else "false".

Definition parseBool (item : string) : option bool :=
  if String.eqb item "true" then Some true
  else if String.eqb item "false" then Some false
  else None.

Definition emptyStorage : UseLocalStorage.Storage :=
  {| UseLocalStorage.stored := None; UseLocalStorage.readable := true;
     UseLocalStorage.writable := true |}.



(** An entry with the checkbox ticked. *)
Definition tickedEntry : RowEntry :=
  {| e_id := "entry-5"; e_createdAt := "2024-05-05T10:00:00.000Z";
     e_updatedAt := "2024-05-05T10:00:00.000Z";
     e_values := {["subscribed" := VBool true]} |}.

(** The state after the entry of [emailState] was duplicated. *)
Definition duplicatedState : Page.AppState :=
  Page.step
    (Page.DuplicateEntry "entry-2" "2024-05-03T12:00:00.000Z" emailEntry)
    emailState.

End Sample.

(** * The vocabulary of the properties *)



(** The same outcome as a function, to follow the loop with. *)
Definition verdict (field : DataEntryField) (value : JsValue) : option string :=
  if f_required field then
    if decide (f_type field = checkbox) then
      if ToBoolean value then None else Some "This checkbox must be selected."
    else
      match value with
      | VUndefined | VNull | VStr "" => Some "This field is required."
      | _ => None
      end
  else None.

(** The raw values a field's normaliser cannot convert: a symbol on a
    number field ([Number()] raises), an object without a primitive value
    on every field but a checkbox ([Number()] and [String()] raise). *)
Definition unconvertible_for (field : DataEntryField) (raw : JsUnknown) : Prop :=
  match raw with
  | Convertible _ => False
  | Symbol _ => f_type field = number
  | Unconvertible => f_type field ≠ checkbox
  end.

(** The entry being edited, if any, is in the list. *)
Definition editing_target_present (st : Page.AppState) : Prop :=
  ∀ targetId, Page.editingEntryId st = Some targetId →
    ∃ e, e ∈ Page.entries st ∧ e_id e = targetId.

(** Every select field has an options list, empty or not. *)
Definition select_has_options (fs : list DataEntryField) : Prop :=
  ∀ field, field ∈ fs → f_type field = select → is_Some (f_options field).

(** [a] may stand before [b] in an order of descending [updatedAt]. *)
Definition newer_first (a b : RowEntry) : Prop :=
  String.leb (e_updatedAt b) (e_updatedAt a) = true.

(** A comparator for the same order that answers 0 on a tie, to compare
    [byUpdatedAt] with. *)
Definition threeWayByUpdatedAt (a b : RowEntry) : Z :=
  if JsString.lt (e_updatedAt a) (e_updatedAt b) then 1%Z
  else if JsString.lt (e_updatedAt b) (e_updatedAt a) then (-1)%Z
  else 0%Z.

(** The insertion sort with the other calling convention: the element
    being placed is the second argument of [comparefn] and goes in front of
    the first element for which the result is positive. *)
Fixpoint sort_insert_late {A : Type} (comparefn : A → A → Z) (pivot : A)
    (sorted : list A) : list A :=
  match sorted with
  | [] => [pivot]
  | y :: rest =>
      if (0 <? comparefn y pivot)%Z then pivot :: sorted
      else y :: sort_insert_late comparefn pivot rest
  end.

Definition array_sort_late {A : Type} (comparefn : A → A → Z) (l : list A)
    : list A :=
  fold_left (λ sorted pivot, sort_insert_late comparefn pivot sorted) l [].

(** A string made of white space only. *)
Fixpoint all_whitespace (s : string) : bool :=
  match s with
  | EmptyString => true
  | String c s' => JsString.is_whitespace c && all_whitespace s'
  end.


(** [c] occurs in [s]. *)
Fixpoint contains_char (c : ascii) (s : string) : bool :=
  match s with
  | EmptyString => false
  | String c' s' => Ascii.eqb c' c || contains_char c s'
  end.

(** A text as the designer leaves it: trimmed, and not empty. *)
Definition tidy (s : string) : Prop := s ≠ "" ∧ JsString.trim s = s.

Definition tidy_option (o : option string) : Prop :=
  match o with
  | None => True
  | Some s => tidy s
  end.

(** Options as the designer leaves them: tidy texts without a comma. *)
Definition tidy_options (opts : list string) : Prop :=
  ∀ o, o ∈ opts → tidy o ∧ contains_char "," o = false.

(** A field as the designer makes it: a tidy label, placeholder and help
    text that are absent or tidy, and for a select field a list of tidy
    options. *)
Definition designer_made (field : DataEntryField) : Prop :=
  tidy (f_label field)
  ∧ tidy_option (f_placeholder field)
  ∧ tidy_option (f_helpText field)
  ∧ (f_type field = select →
     ∃ opts, f_options field = Some opts ∧ tidy_options opts).

(** The id that [createId] hands to an action that makes an entry is not
    the id of an entry of the list. *)
Definition fresh_entry_id (action : Page.Action) (st : Page.AppState) : Prop :=
  match action with
  | Page.SubmitEntry newId _ _ | Page.DuplicateEntry newId _ _ =>
      newId ∉ map e_id (Page.entries st)
  | _ => True
  end.

(** The clock of a submission is not behind the creation time of an entry. *)
Definition clock_not_behind (action : Page.Action) (st : Page.AppState) : Prop :=
  match action with
  | Page.SubmitEntry _ now _ =>
      ∀ e, e ∈ Page.entries st → String.leb (e_createdAt e) now = true
  | _ => True
  end.

(** What identifies an entry and dates it. *)
Definition entry_stamp (e : RowEntry) : string * string * string :=
  (e_id e, e_createdAt e, e_updatedAt e).

(** The field whose editor is open, if any, is in the list. *)
Definition editor_target_present (editingFieldId : option string)
    (fs : list DataEntryField) : Prop :=
  ∀ open, editingFieldId = Some open → ∃ f, f ∈ fs ∧ f_id f = open.

(** * Properties *)

(** ** The value normaliser *)

Section NormalizerFacts.
Context `{JsRuntime}.

Lemma missing_or_present (raw : JsValue) :
  (raw = VUndefined ∨ raw = VNull) ∨ (raw ≠ VUndefined ∧ raw ≠ VNull).
Proof. destruct raw; auto. Qed.

Lemma normalizeValue_missing field raw :
  raw = VUndefined ∨ raw = VNull →
  EntryForm.normalizeValue field raw = EntryForm.getDefaultValue field.
Proof. by intros [-> | ->]. Qed.

Lemma normalizeValue_checkbox field raw :
  f_type field = checkbox →
  EntryForm.normalizeValue field raw = VBool (ToBoolean raw).
Proof.
  intros Hty. unfold EntryForm.normalizeValue, EntryForm.getDefaultValue.
  rewrite Hty. by destruct raw; simpl; try case_decide.
Qed.

Lemma normalizeValue_number field raw :
  f_type field = number → raw ≠ VUndefined → raw ≠ VNull →
  EntryForm.normalizeValue field raw
  = if isFinite (ToNumber raw) then VNum (ToNumber raw) else VNull.
Proof.
  intros Hty Hu Hn. unfold EntryForm.normalizeValue.
  destruct raw; try done;
    (rewrite decide_False by (rewrite Hty; discriminate));
    by rewrite decide_True.
Qed.

Lemma normalizeValue_other field raw :
  f_type field ≠ checkbox → f_type field ≠ number →
  EntryForm.normalizeValue field raw
  = match raw with
    | VUndefined | VNull => VStr ""
    | VObj repr => VStr repr
    | _ => raw
    end.
Proof.
  intros Hc Hn. unfold EntryForm.normalizeValue, EntryForm.getDefaultValue.
  destruct raw; try (by destruct (f_type field));
    by rewrite !decide_False.
Qed.

(** The result is always a value an entry can store: never [undefined],
    never an object. *)
Lemma normalizeValue_storable field raw :
  match EntryForm.normalizeValue field raw with
  | VUndefined | VObj _ => False
  | _ => True
  end.
Proof.
  destruct (decide (f_type field = checkbox)) as [Hc|Hc].
  { by rewrite normalizeValue_checkbox. }
  destruct (decide (f_type field = number)) as [Hn|Hn].
  - destruct (missing_or_present raw) as [Hm|[Hu Hnull]].
    + rewrite normalizeValue_missing by done.
      unfold EntryForm.getDefaultValue. by rewrite Hn.
    + rewrite normalizeValue_number by done. by case (isFinite _).
  - rewrite normalizeValue_other by done. by destruct raw.
Qed.

(** What [handleSubmit] stores for a number field whose form value is the
    blank default. *)
Lemma cleanValue_number_blank field :
  f_type field = number → EntryForm.cleanValue field (VStr "") = VNull.
Proof. intros Hty. unfold EntryForm.cleanValue. by rewrite decide_True. Qed.

(** What a number field ends up storing for a raw value, through
    [normalizeValue] and then [handleSubmit]: [null] for a missing or null
    raw value; for every other raw value the number [Number(...)] reads,
    when it is finite, and [null] when it is not, a failed reading ([NaN])
    included. *)
Lemma number_field_stored field raw :
  f_type field = number →
  (raw = VUndefined ∨ raw = VNull →
     EntryForm.normalizeValue field raw = VStr ""
     ∧ EntryForm.cleanValue field (EntryForm.normalizeValue field raw) = VNull)
  ∧ (raw ≠ VUndefined → raw ≠ VNull →
     EntryForm.normalizeValue field raw
     = (if isFinite (ToNumber raw) then VNum (ToNumber raw) else VNull)
     ∧ EntryForm.cleanValue field (EntryForm.normalizeValue field raw)
       = (if isFinite (ToNumber raw) then VNum (ToNumber raw) else VNull)
     ∧ (ToNumber raw = nan →
        EntryForm.cleanValue field (EntryForm.normalizeValue field raw) = VNull)).
Proof.
  intros Hty. split.
  - intros Hm. rewrite normalizeValue_missing by done.
    unfold EntryForm.getDefaultValue. rewrite Hty.
    split; [done | by apply cleanValue_number_blank].
  - intros Hu Hn. rewrite normalizeValue_number by done.
    split; [done|]. unfold EntryForm.cleanValue. rewrite decide_True by done.
    split; [by destruct (isFinite (ToNumber raw))|by intros ->].
Qed.

(** C2 (where the code departs). On a number field the empty raw value is
    not taken for absent: the number branch of [normalizeValue] has no test
    for the empty string, so it goes through [Number("")], which is 0, and
    [handleSubmit] stores 0. The test is there in [handleSubmit], which
    stores [null] for an empty string it finds in the form, and a missing
    or null raw value does end up as [null]. *)
Theorem C2_empty_string_stored_as_zero field :
  f_type field = number → StringToNumber "" = zero →
  EntryForm.normalizeValue field (VStr "") = VNum zero
  ∧ EntryForm.cleanValue field (EntryForm.normalizeValue field (VStr ""))
    = VNum zero
  ∧ EntryForm.cleanValue field (VStr "") = VNull
  ∧ EntryForm.cleanValue field (EntryForm.normalizeValue field VNull) = VNull
  ∧ EntryForm.cleanValue field (EntryForm.normalizeValue field VUndefined)
    = VNull.
Proof.
  intros Hty Hzero.
  assert (EntryForm.normalizeValue field (VStr "") = VNum zero) as Hnorm.
  { rewrite normalizeValue_number by done. simpl. by rewrite Hzero. }
  split; [exact Hnorm|]. rewrite Hnorm.
  split; [by unfold EntryForm.cleanValue; rewrite decide_True|].
  split; [by apply cleanValue_number_blank|].
  split.
  - by apply (proj1 (number_field_stored field VNull Hty)); right.
  - by apply (proj1 (number_field_stored field VUndefined Hty)); left.
Qed.

Lemma normalizeValue_unknown_Convertible field value :
  EntryForm.normalizeValue_unknown field (Convertible value)
  = Returns (EntryForm.normalizeValue field value).
Proof.
  unfold EntryForm.normalizeValue_unknown, EntryForm.normalizeValue.
  destruct value; try done; simpl; repeat case_decide; done.
Qed.

Lemma normalizeValue_idempotent_where field raw :
  f_type field ≠ number ∨ (∃ n, EntryForm.normalizeValue field raw = VNum n) →
  EntryForm.normalizeValue field (EntryForm.normalizeValue field raw)
  = EntryForm.normalizeValue field raw.
Proof.
  intros Hcase.
  destruct (decide (f_type field = checkbox)) as [Hc|Hc].
  { by rewrite !normalizeValue_checkbox. }
  destruct (decide (f_type field = number)) as [Hn|Hn].
  - destruct Hcase as [? | [n Hres]]; [done|]. rewrite Hres.
    destruct (missing_or_present raw) as [Hm|[Hu Hnull]].
    { rewrite normalizeValue_missing in Hres by done.
      unfold EntryForm.getDefaultValue in Hres. by rewrite Hn in Hres. }
    rewrite normalizeValue_number in Hres by done.
    rewrite normalizeValue_number by done. simpl.
    destruct (isFinite (ToNumber raw)) eqn:Hfin; [|done].
    injection Hres as <-. by rewrite Hfin.
  - rewrite !normalizeValue_other by done. by destruct raw.
Qed.

(** C4 (as amended). [normalizeValue] returns on every raw value except
    those a conversion raises on: a symbol handed to a number field, and
    an object without a primitive value handed to any field but a
    checkbox. Where it returns, the result is a value that converts, and
    normalising it again returns the same result when the field is not
    numeric, and also when the field is numeric and the result is a
    number. *)
Theorem C4_normalize_idempotent field (raw : JsUnknown) :
  (EntryForm.normalizeValue_unknown field raw = Throws
   ↔ unconvertible_for field raw)
  ∧ (∀ value, raw = Convertible value →
       EntryForm.normalizeValue_unknown field raw
       = Returns (EntryForm.normalizeValue field value))
  ∧ ∀ result,
      EntryForm.normalizeValue_unknown field raw = Returns result →
      f_type field ≠ number ∨ (∃ n, result = VNum n) →
      EntryForm.normalizeValue_unknown field (Convertible result)
      = Returns result.
Proof.
  split; [|split].
  - destruct raw as [value|description|].
    + rewrite normalizeValue_unknown_Convertible. by split.
    + unfold EntryForm.normalizeValue_unknown. simpl.
      repeat case_decide; split; try done; congruence.
    + unfold EntryForm.normalizeValue_unknown. simpl.
      repeat case_decide; split; try done; congruence.
  - intros value ->. apply normalizeValue_unknown_Convertible.
  - intros result Hres Hcase. rewrite normalizeValue_unknown_Convertible.
    f_equal. destruct raw as [value|description|].
    + rewrite normalizeValue_unknown_Convertible in Hres.
      injection Hres as <-. apply normalizeValue_idempotent_where.
      destruct Hcase as [?|[n Hn]]; [by left|right; by exists n].
    + unfold EntryForm.normalizeValue_unknown in Hres. simpl in Hres.
      unfold EntryForm.normalizeValue.
      repeat case_decide; try done; by injection Hres as <-.
    + unfold EntryForm.normalizeValue_unknown in Hres. simpl in Hres.
      unfold EntryForm.normalizeValue.
      repeat case_decide; try done; by injection Hres as <-.
Qed.
End NormalizerFacts.

(** ** The entry validator *)



Lemma validate_step_verdict formValues nextErrors field :
  EntryForm.validate_step formValues nextErrors field
  = match verdict field (js_get formValues (f_key field)) with
    | Some msg => <[f_key field := msg]> nextErrors
    | None => nextErrors
    end.
Proof.
  unfold EntryForm.validate_step, verdict.
  destruct (f_required field); simpl; [|done].
  case_decide; [by destruct (ToBoolean _)|].
  destruct (js_get _ _) as [| | | |s|]; try done. by destruct s.
Qed.



Lemma same_image_same_element {A B : Type} (proj : A → B) (l : list A) x y :
  NoDup (map proj l) → x ∈ l → y ∈ l → proj x = proj y → x = y.
Proof.
  induction l as [|h l IH]; simpl; [by inversion 2|].
  intros [Hnotin Hnd]%NoDup_cons [->|Hx]%elem_of_cons [->|Hy]%elem_of_cons Hxy;
    [done| | |by apply IH].
  - destruct Hnotin. rewrite Hxy. by apply list_elem_of_fmap_2.
  - destruct Hnotin. rewrite <- Hxy. by apply list_elem_of_fmap_2.
Qed.



(** ** The field schema store *)

Lemma lookup_map {A B : Type} (f : A → B) (l : list A) (i : nat) :
  map f l !! i = f <$> l !! i.
Proof. exact (list_lookup_fmap f l i). Qed.

Lemma elem_of_map {A B : Type} (f : A → B) (l : list A) (y : B) :
  y ∈ map f l ↔ ∃ x, y = f x ∧ x ∈ l.
Proof. exact (list_elem_of_fmap f l y). Qed.

Lemma find_field_Some (fs : list DataEntryField) fieldId target :
  List.find (λ field, String.eqb (f_id field) fieldId) fs = Some target →
  target ∈ fs ∧ f_id target = fieldId.
Proof.
  intros [Hin Heq]%find_some. split; [by apply list_elem_of_In|].
  by apply String.eqb_eq.
Qed.

Lemma find_field_None (fs : list DataEntryField) fieldId :
  List.find (λ field, String.eqb (f_id field) fieldId) fs = None
  ↔ ∀ field, field ∈ fs → f_id field ≠ fieldId.
Proof.
  split.
  - intros Hnone field Hin%list_elem_of_In.
    by apply String.eqb_neq, (find_none _ _ Hnone).
  - intros Hall. destruct (List.find _ fs) eqn:Hfind; [|done].
    apply find_field_Some in Hfind as [Hin Hid]. by destruct (Hall _ Hin).
Qed.

(** The fields after [handleUpdateField], position by position. *)
Lemma handleUpdateField_fields fieldId patch st i field :
  Page.fields st !! i = Some field →
  Page.fields (Page.handleUpdateField fieldId patch st) !! i
  = Some (if decide (f_id field = fieldId)
          then Page.applyPatch field patch else field).
Proof.
  intros Hi. unfold Page.handleUpdateField.
  destruct (List.find _ _) as [target|] eqn:Hfind; simpl.
  - rewrite lookup_map, Hi. simpl. f_equal.
    destruct (String.eqb_spec (f_id field) fieldId); by case_decide.
  - rewrite Hi. rewrite decide_False; [done|].
    apply (proj1 (find_field_None _ _) Hfind). by eapply list_elem_of_lookup_2.
Qed.

Lemma migrateEntry_values oldKey newKey entry :
  oldKey ≠ newKey →
  e_values (Page.migrateEntry oldKey newKey entry) !! oldKey = None
  ∧ e_values (Page.migrateEntry oldKey newKey entry) !! newKey
    = Some (nullish (js_get (e_values entry) oldKey) (VStr ""))
  ∧ ∀ k, k ≠ oldKey → k ≠ newKey →
      e_values (Page.migrateEntry oldKey newKey entry) !! k = e_values entry !! k.
Proof.
  intros Hne. simpl. split; [|split].
  - rewrite lookup_insert_ne by done. apply lookup_delete_eq.
  - apply lookup_insert_eq.
  - intros k Ha Hb. rewrite lookup_insert_ne by done. by apply lookup_delete_ne.
Qed.

(** C10. When the patch carries no key, or the key the target field already
    has, [handleUpdateField] leaves the list of entries (and so every
    record's value set) as it was, and in the list of fields only the
    fields whose id is the one given are rewritten by the patch. *)
Theorem C10_update_without_rename fieldId patch st :
  (∀ target,
     List.find (λ field, String.eqb (f_id field) fieldId) (Page.fields st)
     = Some target →
     p_key patch = None ∨ p_key patch = Some (f_key target)) →
  let st' := Page.handleUpdateField fieldId patch st in
  Page.entries st' = Page.entries st
  ∧ length (Page.fields st') = length (Page.fields st)
  ∧ ∀ i field, Page.fields st !! i = Some field →
      Page.fields st' !! i
      = Some (if decide (f_id field = fieldId)
              then Page.applyPatch field patch else field).
Proof.
  intros Hkey st'. split; [|split].
  - subst st'. unfold Page.handleUpdateField.
    destruct (List.find _ _) as [target|] eqn:Hfind; [simpl|done].
    destruct (Hkey target eq_refl) as [-> | ->]; [done|].
    by rewrite String.eqb_refl, andb_false_r.
  - subst st'. unfold Page.handleUpdateField.
    destruct (List.find _ _); [simpl|done]. apply length_map.
  - intros i field. apply handleUpdateField_fields.
Qed.

(** C1 (as amended). When the patch carries a key [b] that is not the empty
    string and differs from the key [a] of the target field,
    [handleUpdateField] yields, in one step, the fields rewritten by the
    patch (the target now has key [b]) and every entry migrated: the entry
    keeps its id and its timestamps, has no key [a], holds under [b] the
    value it had under [a] when that value was present and not [null],
    holds the empty string there (whatever the type of the field) when it
    held [null] under [a] or had no key [a] and [a] names nothing that an
    object inherits, and is unchanged at every other key. *)
Theorem C1_key_migration fieldId patch st target b :
  List.find (λ field, String.eqb (f_id field) fieldId) (Page.fields st)
  = Some target →
  p_key patch = Some b → b ≠ "" → b ≠ f_key target →
  let a := f_key target in
  let st' := Page.handleUpdateField fieldId patch st in
  (∀ i field, Page.fields st !! i = Some field →
     Page.fields st' !! i
     = Some (if decide (f_id field = fieldId)
             then Page.applyPatch field patch else field))
  ∧ f_key (Page.applyPatch target patch) = b
  ∧ length (Page.entries st') = length (Page.entries st)
  ∧ (∀ i e, Page.entries st !! i = Some e →
     ∃ e', Page.entries st' !! i = Some e'
       ∧ e_id e' = e_id e ∧ e_createdAt e' = e_createdAt e
       ∧ e_updatedAt e' = e_updatedAt e
       ∧ (∀ v, e_values e !! a = Some v → v ≠ VNull → v ≠ VUndefined →
            e_values e' !! b = Some v)
       ∧ (e_values e !! a = None ∧ inherited a = VUndefined
          ∨ e_values e !! a = Some VNull
          ∨ e_values e !! a = Some VUndefined →
            e_values e' !! b = Some (VStr ""))
       ∧ (∀ k, k ≠ a → k ≠ b → e_values e' !! k = e_values e !! k))
  ∧ (∀ e', e' ∈ Page.entries st' → e_values e' !! a = None).
Proof.
  intros Hfind Hkey Hb Hab a st'.
  assert (Page.entries st' = map (Page.migrateEntry a b) (Page.entries st))
    as Hentries.
  { subst st'. unfold Page.handleUpdateField. rewrite Hfind, Hkey. simpl.
    unfold JsString.truthy.
    rewrite (proj2 (String.eqb_neq b "")), (proj2 (String.eqb_neq b (f_key target)));
      done. }
  assert (a ≠ b) as Hne by (intros Heq; by apply Hab).
  split; [intros i field; apply handleUpdateField_fields|].
  split; [by unfold Page.applyPatch; rewrite Hkey|].
  rewrite Hentries. split; [apply length_map|]. split.
  - intros i e Hi. exists (Page.migrateEntry a b e).
    rewrite lookup_map, Hi.
    destruct (migrateEntry_values a b e Hne) as (_ & Hnew & Hrest).
    do 4 (split; [done|]). split; [|split; [|done]].
    + intros v Hv Hnull Hundef. rewrite Hnew. unfold js_get. rewrite Hv.
      by destruct v.
    + intros Hcases. rewrite Hnew. unfold js_get.
      destruct Hcases as [[-> ->] | [-> | ->]]; done.
  - intros e' (e & -> & _)%elem_of_map.
    by destruct (migrateEntry_values a b e Hne) as (Hold & _).
Qed.

(** C6. [handleDeleteField] with an id some field has removes every field
    with that id, keeps the others in their order, and in every entry
    deletes the key of the field found (the first with that id), leaving
    the entry's id, timestamps and other keys alone; with an id no field
    has, it returns the state unchanged. *)
Theorem C6_delete_field fieldId st :
  let st' := Page.handleDeleteField fieldId st in
  (∀ target,
     List.find (λ item, String.eqb (f_id item) fieldId) (Page.fields st)
     = Some target →
     (∀ field, field ∈ Page.fields st'
               ↔ field ∈ Page.fields st ∧ f_id field ≠ fieldId)
     ∧ Page.fields st'
       = List.filter (λ item, negb (String.eqb (f_id item) fieldId)) (Page.fields st)
     ∧ length (Page.entries st') = length (Page.entries st)
     ∧ ∀ i e, Page.entries st !! i = Some e →
         ∃ e', Page.entries st' !! i = Some e'
           ∧ e_id e' = e_id e ∧ e_createdAt e' = e_createdAt e
           ∧ e_updatedAt e' = e_updatedAt e
           ∧ e_values e' !! f_key target = None
           ∧ ∀ k, k ≠ f_key target → e_values e' !! k = e_values e !! k)
  ∧ ((∀ field, field ∈ Page.fields st → f_id field ≠ fieldId) → st' = st).
Proof.
  intros st'. subst st'. unfold Page.handleDeleteField. split.
  - intros target ->. simpl. split; [|split; [done|split; [apply length_map|]]].
    + intros field. rewrite list_elem_of_In, filter_In, <- list_elem_of_In.
      by rewrite negb_true_iff, String.eqb_neq.
    + intros i e Hi. exists (Page.dropKey (f_key target) e).
      rewrite lookup_map, Hi. simpl. do 4 (split; [done|]). split.
      * apply lookup_delete_eq.
      * intros k Hk. by apply lookup_delete_ne.
  - intros Hnone%find_field_None. by rewrite Hnone.
Qed.

(** ** The entry store *)

Lemma editingEntry_Some st target :
  Page.editingEntry st = Some target →
  target ∈ Page.entries st ∧ Page.editingEntryId st = Some (e_id target).
Proof.
  unfold Page.editingEntry. destruct (Page.editingEntryId st) as [i|]; [|done].
  intros [Hin Heq]%find_some. apply String.eqb_eq in Heq as <-.
  by rewrite list_elem_of_In.
Qed.

Lemma editingEntry_None st :
  Page.editingEntry st = None
  ↔ ∀ e, e ∈ Page.entries st → Some (e_id e) ≠ Page.editingEntryId st.
Proof.
  unfold Page.editingEntry. destruct (Page.editingEntryId st) as [i|].
  - split.
    + intros Hnone e Hin%list_elem_of_In [= Heq].
      apply (find_none _ _ Hnone) in Hin. by apply String.eqb_neq in Hin.
    + intros Hall. destruct (List.find _ _) as [e|] eqn:Hfind; [|done].
      apply find_some in Hfind as [Hin Heq]. apply String.eqb_eq in Heq.
      apply list_elem_of_In in Hin. destruct (Hall e Hin). by rewrite Heq.
  - split; [by intros _ e _|done].
Qed.

Lemma editing_target_map (f : RowEntry → RowEntry) fs' st :
  (∀ e, e_id (f e) = e_id e) →
  editing_target_present st →
  editing_target_present
    {| Page.fields := fs'; Page.entries := map f (Page.entries st);
       Page.editingEntryId := Page.editingEntryId st |}.
Proof.
  intros Hid Hinv targetId Htarget. simpl in *.
  destruct (Hinv targetId Htarget) as (e & Hin & <-).
  exists (f e). split; [|done]. apply elem_of_map. by exists e.
Qed.

(** Every action the page offers keeps the entry being edited in the list. *)
Lemma step_editing_target action st :
  editing_target_present st → Page.enabled action st →
  editing_target_present (Page.step action st).
Proof.
  intros Hinv Henabled. destruct action; simpl in *.
  - done.
  - unfold Page.handleUpdateField. destruct (List.find _ _) as [target|]; [|done].
    destruct (p_key patch) as [newKey|]; [|done].
    destruct (_ && _); [|done].
    by apply editing_target_map.
  - unfold Page.handleDeleteField. destruct (List.find _ _) as [target|]; [|done].
    by apply editing_target_map.
  - unfold Page.handleSubmitEntry, Page.handleUpdateEntry, Page.handleCreateEntry.
    by destruct (Page.editingEntry st).
  - unfold Page.handleDeleteEntry. destruct confirmed; [simpl|done].
    intros targetId Htarget. simpl in *.
    destruct (Page.editingEntryId st) as [target|] eqn:Hedit; [|done].
    destruct (String.eqb_spec target (e_id entry)) as [|Hne]; [done|].
    injection Htarget as <-.
    destruct (Hinv target Hedit) as (e & Hin & He).
    exists e. split; [|done].
    rewrite list_elem_of_In, filter_In, <- list_elem_of_In.
    split; [done|]. rewrite negb_true_iff, String.eqb_neq. congruence.
  - intros targetId Htarget. simpl in *.
    destruct (Hinv targetId Htarget) as (e & Hin & He).
    exists e. split; [by right|done].
  - unfold Page.handleClearEntries. destruct (Page.entries st) eqn:Hentries; [done|].
    by destruct confirmed.
  - intros targetId [= <-]. by exists entry.
  - by intros targetId.
Qed.

Lemma reachable_editing_target start st :
  editing_target_present start → Page.reachable start st →
  editing_target_present st.
Proof.
  intros Hstart. induction 1 as [|st action _ IH Henabled]; [done|].
  by apply step_editing_target.
Qed.


(** ** Key derivation in the designer *)

Lemma candidateKey_inj baseKey : Inj (=) (=) (FieldDesigner.candidateKey baseKey).
Proof.
  intros c1 c2 Heq. unfold FieldDesigner.candidateKey in Heq.
  apply (inj (String.app baseKey)) in Heq.
  apply (inj (String.app "-")) in Heq.
  by apply (inj pretty) in Heq.
Qed.

Lemma array_includes_true existingKeys key :
  FieldDesigner.array_includes existingKeys key = true ↔ key ∈ existingKeys.
Proof. apply bool_decide_eq_true. Qed.

Lemma array_includes_false existingKeys key :
  FieldDesigner.array_includes existingKeys key = false ↔ key ∉ existingKeys.
Proof. apply bool_decide_eq_false. Qed.

(** A loop that gives up has met a taken candidate at each of its tests. *)
Lemma ensureUniqueKey_loop_None fuel baseKey existingKeys counter :
  FieldDesigner.ensureUniqueKey_loop fuel baseKey existingKeys counter = None →
  ∀ i, (i < fuel)%nat →
    FieldDesigner.candidateKey baseKey (counter + N.of_nat i) ∈ existingKeys.
Proof.
  revert counter. induction fuel as [|fuel IH]; intros counter Hnone i Hi; [lia|].
  simpl in Hnone.
  destruct (FieldDesigner.array_includes _ _) eqn:Hinc; [|done].
  destruct i as [|i].
  - rewrite N.add_0_r. by apply array_includes_true.
  - replace (counter + N.of_nat (S i))%N with (counter + 1 + N.of_nat i)%N by lia.
    apply IH; [done|lia].
Qed.

(** A loop that answers gives the first candidate that is free. *)
Lemma ensureUniqueKey_loop_Some fuel baseKey existingKeys counter key :
  FieldDesigner.ensureUniqueKey_loop fuel baseKey existingKeys counter = Some key →
  ∃ n, (counter ≤ n)%N ∧ key = FieldDesigner.candidateKey baseKey n
    ∧ (key ∉ existingKeys)
    ∧ ∀ m, (counter ≤ m < n)%N →
        FieldDesigner.candidateKey baseKey m ∈ existingKeys.
Proof.
  revert counter. induction fuel as [|fuel IH]; intros counter Hsome; [done|].
  simpl in Hsome.
  destruct (FieldDesigner.array_includes _ _) eqn:Hinc.
  - apply IH in Hsome as (n & Hle & -> & Hfree & Hbelow).
    exists n. split; [lia|]. split; [done|]. split; [done|].
    intros m Hm. destruct (decide (m = counter)) as [->|Hne].
    + by apply array_includes_true.
    + apply Hbelow. lia.
  - injection Hsome as <-. exists counter. split; [lia|]. split; [done|].
    split; [by apply array_includes_false|]. intros m Hm. lia.
Qed.

(** With one more test than there are keys the loop cannot give up: the
    candidates it meets are distinct, and they cannot all be taken. *)
Lemma ensureUniqueKey_loop_enough fuel baseKey existingKeys counter :
  (length existingKeys < fuel)%nat →
  is_Some (FieldDesigner.ensureUniqueKey_loop fuel baseKey existingKeys counter).
Proof.
  intros Hfuel.
  destruct (FieldDesigner.ensureUniqueKey_loop _ _ _ _) eqn:Hloop; [by eexists|].
  pose proof (ensureUniqueKey_loop_None _ _ _ _ Hloop) as Htaken.
  set (met := (λ i, FieldDesigner.candidateKey baseKey (counter + N.of_nat i))
                <$> seq 0 fuel).
  assert (NoDup met) as Hnd.
  { apply NoDup_fmap_2; [|apply NoDup_seq].
    intros i j Hij%candidateKey_inj. lia. }
  assert (met ⊆+ existingKeys) as Hsub.
  { apply NoDup_submseteq; [done|].
    intros key (i & -> & Hi%elem_of_seq)%list_elem_of_fmap. apply Htaken. lia. }
  apply submseteq_length in Hsub.
  unfold met in Hsub. rewrite length_fmap, length_seq in Hsub. lia.
Qed.

(** More fuel than that does not change the answer. *)
Lemma ensureUniqueKey_loop_fuel fuel fuel' baseKey existingKeys counter key :
  FieldDesigner.ensureUniqueKey_loop fuel baseKey existingKeys counter = Some key →
  (fuel ≤ fuel')%nat →
  FieldDesigner.ensureUniqueKey_loop fuel' baseKey existingKeys counter = Some key.
Proof.
  revert fuel' counter. induction fuel as [|fuel IH]; intros fuel' counter; [done|].
  destruct fuel' as [|fuel']; [lia|]. simpl.
  destruct (FieldDesigner.array_includes _ _); [|done].
  intros Hsome Hle. apply IH; [done|lia].
Qed.

(** [ensureUniqueKey] returns, and what it returns is the base key when
    that is free and otherwise the base key with the least suffix [-n],
    [n] from 1 up, that is free. *)
Lemma ensureUniqueKey_spec baseKey existingKeys :
  ∃ key, FieldDesigner.ensureUniqueKey baseKey existingKeys = Some key
    ∧ (key ∉ existingKeys)
    ∧ (((baseKey ∉ existingKeys) ∧ key = baseKey)
       ∨ (baseKey ∈ existingKeys
          ∧ ∃ n, (1 ≤ n)%N ∧ key = FieldDesigner.candidateKey baseKey n
              ∧ ∀ m, (1 ≤ m < n)%N →
                  FieldDesigner.candidateKey baseKey m ∈ existingKeys)).
Proof.
  unfold FieldDesigner.ensureUniqueKey.
  destruct (FieldDesigner.array_includes existingKeys baseKey) eqn:Hinc; simpl.
  - apply array_includes_true in Hinc.
    destruct (ensureUniqueKey_loop_enough (S (length existingKeys)) baseKey
                existingKeys 1) as [key Hloop]; [lia|].
    exists key. split; [done|].
    apply ensureUniqueKey_loop_Some in Hloop as (n & Hle & -> & Hfree & Hbelow).
    split; [done|]. right. split; [done|]. by exists n.
  - apply array_includes_false in Hinc. exists baseKey. auto.
Qed.

Section KeyDerivation.
Context `{SlugLib}.

(** The key derived for a draft: the slug of the label, or [field-N] with
    [N] one more than the number of fields when the slug is empty, as it
    stands when free and with the least free suffix otherwise. *)
Lemma deriveKey_spec draft (fs : list DataEntryField) :
  let baseKey :=
    if JsString.truthy (createSlug (FieldDesigner.d_label draft))
    then createSlug (FieldDesigner.d_label draft)
    else "field-" +:+ pretty (length fs + 1)%nat in
  ∃ key, FieldDesigner.deriveKey draft fs = Some key
    ∧ (key ∉ map f_key fs)
    ∧ (key = baseKey
       ∨ ∃ n, (1 ≤ n)%N ∧ key = FieldDesigner.candidateKey baseKey n
           ∧ baseKey ∈ map f_key fs
           ∧ ∀ m, (1 ≤ m < n)%N →
               FieldDesigner.candidateKey baseKey m ∈ map f_key fs).
Proof.
  intros baseKey. unfold FieldDesigner.deriveKey. fold baseKey.
  destruct (ensureUniqueKey_spec baseKey (map f_key fs))
    as (key & Hkey & Hfree & [[_ ->]|(Htaken & n & Hn & -> & Hbelow)]);
    eexists; (split; [exact Hkey|]); (split; [done|]); [by left|].
  right. by exists n.
Qed.

(** One addition: either the draft is ignored, or one field is appended
    whose key no field had. *)
Lemma handleAddField_fields draft newId st :
  ∃ st', FieldDesigner.handleAddField draft newId st = Some st'
    ∧ Page.entries st' = Page.entries st
    ∧ ((FieldDesigner.canSubmit draft = false ∧ st' = st)
       ∨ (FieldDesigner.canSubmit draft = true
          ∧ ∃ field, Page.fields st' = Page.fields st ++ [field]
              ∧ f_id field = newId
              ∧ f_type field = FieldDesigner.d_type draft
              ∧ f_options field
                = (if decide (FieldDesigner.d_type draft = select)
                   then Some (FieldDesigner.parseOptions
                                (FieldDesigner.d_options draft))
                   else None)
              ∧ f_key field ∉ map f_key (Page.fields st))).
Proof.
  unfold FieldDesigner.handleAddField.
  destruct (FieldDesigner.canSubmit draft); simpl; [|by eauto 10].
  unfold FieldDesigner.deriveKey.
  match goal with
  | |- context [FieldDesigner.ensureUniqueKey ?b ?ks] =>
      destruct (ensureUniqueKey_spec b ks) as (key & -> & Hfree & _)
  end.
  simpl. eexists. split; [done|]. split; [done|]. right. split; [done|].
  eexists. split; [done|]. by simpl.
Qed.

Lemma handleAddField_unique draft newId st :
  NoDup (map f_key (Page.fields st)) →
  ∃ st', FieldDesigner.handleAddField draft newId st = Some st'
    ∧ NoDup (map f_key (Page.fields st')).
Proof.
  intros Hnd.
  destruct (handleAddField_fields draft newId st)
    as (st' & Hadd & _ & [[_ Hsame]|(_ & field & Hfields & _ & _ & _ & Hfree)]);
    exists st'; (split; [done|]); [by rewrite Hsame|].
  rewrite Hfields, map_app. simpl.
  apply NoDup_app. split; [done|]. split; [|apply NoDup_singleton].
  intros key Hin ->%list_elem_of_singleton. done.
Qed.

(** C5. Whatever the drafts added one after the other through the
    designer (labels that collide, labels whose slug is empty), every
    addition returns, and if the keys of the fields were distinct before
    they are distinct after: no two active fields share a storage key. *)
Theorem C5_unique_keys (drafts : list (FieldDesigner.DraftField * string)) st :
  NoDup (map f_key (Page.fields st)) →
  ∃ st', FieldDesigner.addFields drafts st = Some st'
    ∧ NoDup (map f_key (Page.fields st')).
Proof.
  revert st. induction drafts as [|[draft newId] rest IH]; intros st Hnd; simpl.
  { by exists st. }
  destruct (handleAddField_unique draft newId st Hnd) as (st1 & -> & Hnd1).
  simpl. by apply IH.
Qed.
End KeyDerivation.

(** ** Options of the select fields *)

Lemma parseOptions_items text item :
  item ∈ FieldDesigner.parseOptions text →
  item ≠ "" ∧ ∃ raw, raw ∈ JsString.split "," text ∧ item = JsString.trim raw.
Proof.
  unfold FieldDesigner.parseOptions.
  rewrite list_elem_of_In, filter_In, <- list_elem_of_In, elem_of_map.
  intros [(raw & -> & Hraw) Htruthy]. split; [|by exists raw].
  unfold JsString.truthy in Htruthy. by apply negb_true_iff, String.eqb_neq in Htruthy.
Qed.

Lemma saveField_fields field local st i g :
  Page.fields st !! i = Some g →
  Page.fields (FieldDesigner.saveField field local st) !! i
  = Some (if decide (f_id g = f_id field)
          then Page.applyPatch g (FieldDesigner.handleSave field local) else g).
Proof. apply handleUpdateField_fields. Qed.

Lemma saveField_elem field local st g' :
  g' ∈ Page.fields (FieldDesigner.saveField field local st) →
  ∃ g, g ∈ Page.fields st
    ∧ g' = (if decide (f_id g = f_id field)
            then Page.applyPatch g (FieldDesigner.handleSave field local)
            else g).
Proof.
  intros (i & Hi)%list_elem_of_lookup_1.
  destruct (Page.fields st !! i) as [g|] eqn:Hg.
  2: { apply lookup_ge_None in Hg. apply lookup_lt_Some in Hi.
       unfold FieldDesigner.saveField, Page.handleUpdateField in Hi.
       destruct (List.find _ _); simpl in Hi; [rewrite length_map in Hi|]; lia. }
  rewrite (saveField_fields field local st i g Hg) in Hi.
  injection Hi as <-. exists g. split; [|done].
  by apply list_elem_of_lookup_2 in Hg.
Qed.

(** Among fields with distinct ids, the field saved from the editor of
    [field] is [field] with the patch of [handleSave]; the others stay. *)
Lemma saveField_elem_unique field local st g' :
  NoDup (map f_id (Page.fields st)) → field ∈ Page.fields st →
  g' ∈ Page.fields (FieldDesigner.saveField field local st) →
  (f_id g' = f_id field
   ∧ g' = Page.applyPatch field (FieldDesigner.handleSave field local))
  ∨ (f_id g' ≠ f_id field ∧ g' ∈ Page.fields st).
Proof.
  intros Hids Hfield (g & Hg & ->)%saveField_elem.
  case_decide as Hid; [left|by right].
  assert (g = field) as ->
    by exact (same_image_same_element f_id _ g field Hids Hg Hfield Hid).
  done.
Qed.

Section SelectOptions.
Context `{SlugLib}.

(** C9 (as amended). Every active select field has an options list, which
    holds the non-blank items of the comma-separated options text, trimmed,
    and is empty when the text has none. If that holds of the fields, it
    still holds after any field is added through the designer (to any
    list of fields, the empty one included), and, the ids being distinct,
    after any field of the list is saved from its editor; the select field
    added or saved has the options read from the options text. *)
Theorem C9_select_options st :
  select_has_options (Page.fields st) →
  (∀ draft newId,
     ∃ st', FieldDesigner.handleAddField draft newId st = Some st'
       ∧ select_has_options (Page.fields st')
       ∧ ∀ added, Page.fields st' = Page.fields st ++ [added] →
           f_type added = select →
           f_options added
           = Some (FieldDesigner.parseOptions (FieldDesigner.d_options draft)))
  ∧ (∀ field local,
       NoDup (map f_id (Page.fields st)) → field ∈ Page.fields st →
       select_has_options (Page.fields (FieldDesigner.saveField field local st))
       ∧ (f_type field = select →
          ∀ saved,
            saved ∈ Page.fields (FieldDesigner.saveField field local st) →
            f_id saved = f_id field →
            f_options saved
            = Some (FieldDesigner.parseOptions
                      (FieldDesigner.localOptions local))))
  ∧ (∀ text item,
       item ∈ FieldDesigner.parseOptions text
       ↔ item ≠ "" ∧ ∃ raw, raw ∈ JsString.split "," text
                       ∧ item = JsString.trim raw).
Proof.
  intros Hinv. split; [|split].
  - intros draft newId.
    destruct (handleAddField_fields draft newId st)
      as (st' & Hadd & _ & [[_ Hsame]|(_ & new & Hfields & _ & Hty & Hopts & _)]);
      exists st'; (split; [done|]).
    + rewrite Hsame. split; [done|]. intros added Happ.
      apply (f_equal length) in Happ. rewrite length_app in Happ.
      simpl in Happ. lia.
    + rewrite Hfields. split.
      * intros g [Hg| ->%list_elem_of_singleton]%elem_of_app Hsel.
        -- by apply Hinv.
        -- rewrite Hopts, decide_True by congruence. by eexists.
      * intros added [_ <-]%app_inj_tail Hsel.
        rewrite Hopts, decide_True by congruence. done.
  - intros field local Hids Hfield. split.
    + intros g' Hg' Hsel.
      destruct (saveField_elem_unique field local st g' Hids Hfield Hg')
        as [[_ ->]|[_ Hold]]; [|by apply Hinv].
      simpl in *. rewrite decide_True by done. by eexists.
    + intros Hsel saved Hsaved Hid.
      destruct (saveField_elem_unique field local st saved Hids Hfield Hsaved)
        as [[_ ->]|[Hne _]]; [|done].
      simpl. by rewrite decide_True.
  - intros text item. split; [apply parseOptions_items|].
    intros (Hne & raw & Hraw & ->). unfold FieldDesigner.parseOptions.
    rewrite list_elem_of_In, filter_In, <- list_elem_of_In, elem_of_map.
    split; [by exists raw|].
    unfold JsString.truthy. by apply negb_true_iff, String.eqb_neq.
Qed.
End SelectOptions.

(** ** The entries table: sorting and filtering *)

Lemma trim_all_whitespace s : all_whitespace s = true → JsString.trim s = "".
Proof.
  unfold JsString.trim. induction s as [|c s IH]; simpl; [done|].
  intros [Hc Hs]%andb_true_iff. rewrite Hc. by apply IH.
Qed.

Lemma ltb_false_leb s1 s2 : String.ltb s1 s2 = false → String.leb s2 s1 = true.
Proof.
  unfold String.ltb, String.leb. rewrite (String.compare_antisym s1 s2).
  by destruct (String.compare s2 s1).
Qed.

Lemma ltb_true_leb s1 s2 : String.ltb s1 s2 = true → String.leb s1 s2 = true.
Proof. unfold String.ltb, String.leb. by destruct (String.compare s1 s2). Qed.

Lemma compare_refl s : String.compare s s = Eq.
Proof.
  induction s as [|c s IH]; simpl; [done|].
  unfold Ascii.compare. by rewrite N.compare_refl.
Qed.

Lemma ltb_irrefl s : String.ltb s s = false.
Proof. unfold String.ltb. by rewrite compare_refl. Qed.

Lemma leb_trans s1 s2 s3 :
  String.leb s1 s2 = true → String.leb s2 s3 = true → String.leb s1 s3 = true.
Proof.
  intros H12%Is_true_true H23%Is_true_true. apply Is_true_true.
  exact (transitivity (R:=String.le) H12 H23).
Qed.

Lemma byUpdatedAt_negative a b :
  (EntriesTable.byUpdatedAt a b <? 0)%Z = true
  ↔ String.ltb (e_updatedAt a) (e_updatedAt b) = false.
Proof.
  unfold EntriesTable.byUpdatedAt, JsString.lt.
  by destruct (String.ltb _ _).
Qed.

(** The comparator never answers 0: on two entries with the same
    [updatedAt] it says of each that it goes before the other. *)
Lemma byUpdatedAt_tie a b :
  e_updatedAt a = e_updatedAt b →
  EntriesTable.byUpdatedAt a b = (-1)%Z ∧ EntriesTable.byUpdatedAt b a = (-1)%Z.
Proof.
  intros Heq. unfold EntriesTable.byUpdatedAt, JsString.lt.
  by rewrite Heq, ltb_irrefl.
Qed.

Lemma sort_insert_perm {A : Type} (comparefn : A → A → Z) pivot sorted :
  EntriesTable.sort_insert comparefn pivot sorted ≡ₚ pivot :: sorted.
Proof.
  induction sorted as [|y rest IH]; simpl; [done|].
  destruct (comparefn pivot y <? 0)%Z; [done|].
  rewrite IH. apply Permutation_swap.
Qed.

Lemma sort_fold_perm {A : Type} (comparefn : A → A → Z) l acc :
  fold_left (λ sorted pivot, EntriesTable.sort_insert comparefn pivot sorted) l acc
  ≡ₚ l ++ acc.
Proof.
  revert acc. induction l as [|x l IH]; intros acc; simpl; [done|].
  rewrite IH, sort_insert_perm. by rewrite Permutation_middle.
Qed.

(** The sorted array holds the elements of the array, each as often. *)
Lemma array_sort_perm {A : Type} (comparefn : A → A → Z) l :
  EntriesTable.array_sort comparefn l ≡ₚ l.
Proof.
  unfold EntriesTable.array_sort. by rewrite sort_fold_perm, app_nil_r.
Qed.

(** With a consistent comparator, one that answers a negative number
    exactly when its first argument is strictly before its second in a
    total preorder, [array_sort] is the sort ECMAScript prescribes: the
    result is in order, and elements that tie keep the order they had. *)
Section ConsistentComparator.
Context {A : Type} (comparefn : A → A → Z) (le : relation A).
Context `{!Total le, !Transitive le, !∀ x y, Decision (le x y)}.
Hypothesis comparefn_negative :
  ∀ x y, (comparefn x y <? 0)%Z = true ↔ ¬ le y x.

Lemma sort_insert_in_order pivot sorted :
  StronglySorted le sorted →
  StronglySorted le (EntriesTable.sort_insert comparefn pivot sorted).
Proof.
  induction 1 as [|y rest Hsorted IH Hall]; simpl; [repeat constructor|].
  destruct (comparefn pivot y <? 0)%Z eqn:Hcmp.
  - apply comparefn_negative in Hcmp.
    assert (le pivot y) as Hle by (by destruct (total le pivot y)).
    constructor; [by constructor|]. constructor; [done|].
    eapply Forall_impl; [exact Hall|]. intros z Hz. by transitivity y.
  - assert (le y pivot) as Hle.
    { destruct (decide (le y pivot)) as [|Hn]; [done|].
      apply comparefn_negative in Hn. congruence. }
    constructor; [done|]. rewrite sort_insert_perm. by constructor.
Qed.

Lemma sort_insert_keeps_ties z pivot sorted :
  StronglySorted le sorted →
  filter (λ x, le x z ∧ le z x) (EntriesTable.sort_insert comparefn pivot sorted)
  = filter (λ x, le x z ∧ le z x) (sorted ++ [pivot]).
Proof.
  induction 1 as [|y rest Hsorted IH Hall]; simpl; [done|].
  destruct (comparefn pivot y <? 0)%Z eqn:Hcmp.
  - apply comparefn_negative in Hcmp.
    destruct (decide (le pivot z ∧ le z pivot)) as [[Hpz Hzp]|Hnot].
    + assert (filter (λ x, le x z ∧ le z x) (y :: rest) = []) as Hnone.
      { apply elem_of_nil_inv. intros w [[Hwz Hzw] Hw]%list_elem_of_filter.
        apply Hcmp. apply elem_of_cons in Hw as [->|Hw].
        - by transitivity z.
        - rewrite Forall_forall in Hall.
          transitivity w; [by apply Hall|by transitivity z]. }
      rewrite filter_cons_True by done.
      change (y :: rest ++ [pivot]) with ((y :: rest) ++ [pivot]).
      rewrite filter_app, Hnone. simpl. by rewrite filter_cons_True.
    + rewrite filter_cons_False by done.
      change (y :: rest ++ [pivot]) with ((y :: rest) ++ [pivot]).
      rewrite filter_app, (filter_cons_False _ pivot) by done.
      by rewrite filter_nil, app_nil_r.
  - by rewrite !filter_cons, IH.
Qed.

Lemma array_sort_in_order l :
  StronglySorted le (EntriesTable.array_sort comparefn l).
Proof.
  unfold EntriesTable.array_sort.
  assert (StronglySorted le []) as Hnil by constructor.
  revert Hnil. generalize (@nil A).
  induction l as [|x l IH]; intros acc Hacc; simpl; [done|].
  by apply IH, sort_insert_in_order.
Qed.

Lemma sort_fold_keeps_ties z l acc :
  StronglySorted le acc →
  filter (λ x, le x z ∧ le z x)
    (fold_left (λ sorted pivot, EntriesTable.sort_insert comparefn pivot sorted) l acc)
  = filter (λ x, le x z ∧ le z x) (acc ++ l).
Proof.
  revert acc. induction l as [|x l IH]; intros acc Hacc; simpl.
  { by rewrite app_nil_r. }
  rewrite IH by (by apply sort_insert_in_order).
  rewrite filter_app, sort_insert_keeps_ties by done.
  by rewrite <- filter_app, <- app_assoc.
Qed.

Lemma array_sort_keeps_ties z l :
  filter (λ x, le x z ∧ le z x) (EntriesTable.array_sort comparefn l)
  = filter (λ x, le x z ∧ le z x) l.
Proof. apply (sort_fold_keeps_ties z l []). constructor. Qed.
End ConsistentComparator.

(** The two calling conventions give the same array for every comparator
    whose sign flips when its arguments are swapped, as the sign of a
    consistent comparator does. *)
Lemma sort_conventions_agree {A : Type} (comparefn : A → A → Z) :
  (∀ x y, (comparefn x y <? 0)%Z = (0 <? comparefn y x)%Z) →
  ∀ l, array_sort_late comparefn l = EntriesTable.array_sort comparefn l.
Proof.
  intros Hflip l. unfold array_sort_late, EntriesTable.array_sort.
  generalize (@nil A). induction l as [|x l IH]; intros acc; simpl; [done|].
  rewrite IH. f_equal. clear IH.
  induction acc as [|y acc IHacc]; simpl; [done|].
  by rewrite <- Hflip, IHacc.
Qed.

(** [byUpdatedAt] is not such a comparator, and under the other convention
    entries that tie keep the order they had. *)
Lemma array_sort_late_ties updatedAt l :
  (∀ e, e ∈ l → e_updatedAt e = updatedAt) →
  array_sort_late EntriesTable.byUpdatedAt l = l.
Proof.
  unfold array_sort_late. intros Hl.
  change l with ([] ++ l) at 2.
  assert (∀ e, e ∈ @nil RowEntry → e_updatedAt e = updatedAt) as Hacc
    by (intros e He; inversion He).
  revert Hacc. generalize (@nil RowEntry).
  induction l as [|x l IH]; intros acc Hacc; simpl; [by rewrite app_nil_r|].
  assert (sort_insert_late EntriesTable.byUpdatedAt x acc = acc ++ [x]) as ->.
  { clear IH. induction acc as [|y acc IHacc]; simpl; [done|].
    destruct (byUpdatedAt_tie y x) as [-> _].
    { rewrite (Hacc y), (Hl x); [done|by left|by left]. }
    simpl. rewrite IHacc; [done|]. intros e He. apply Hacc. by right. }
  rewrite IH.
  - by rewrite <- app_assoc.
  - intros e He. apply Hl. by right.
  - intros e [He| ->%list_elem_of_singleton]%elem_of_app;
      [by apply Hacc|apply Hl; by left].
Qed.

Global Instance newer_first_total : Total newer_first.
Proof.
  intros a b. unfold newer_first.
  destruct (String.leb_total (e_updatedAt a) (e_updatedAt b)); auto.
Qed.

Global Instance newer_first_trans : Transitive newer_first.
Proof. intros a b c Hab Hbc. unfold newer_first in *. by eapply leb_trans. Qed.

Global Instance newer_first_dec a b : Decision (newer_first a b).
Proof. unfold newer_first. apply _. Defined.

Lemma threeWayByUpdatedAt_negative a b :
  (threeWayByUpdatedAt a b <? 0)%Z = true ↔ ¬ newer_first b a.
Proof.
  unfold threeWayByUpdatedAt, newer_first, JsString.lt, String.ltb, String.leb.
  rewrite (String.compare_antisym (e_updatedAt b) (e_updatedAt a)).
  destruct (String.compare (e_updatedAt a) (e_updatedAt b)); simpl;
    split; try done; by intros [].
Qed.

Lemma threeWayByUpdatedAt_flips a b :
  (threeWayByUpdatedAt a b <? 0)%Z = (0 <? threeWayByUpdatedAt b a)%Z.
Proof.
  unfold threeWayByUpdatedAt, JsString.lt, String.ltb.
  rewrite (String.compare_antisym (e_updatedAt b) (e_updatedAt a)).
  by destruct (String.compare (e_updatedAt a) (e_updatedAt b)).
Qed.

Lemma array_sort_threeWay_conventions l :
  array_sort_late threeWayByUpdatedAt l
  = EntriesTable.array_sort threeWayByUpdatedAt l.
Proof. apply sort_conventions_agree, threeWayByUpdatedAt_flips. Qed.

(** With the comparator that answers 0 on a tie the order is descending
    and the entries that tie keep the order of the collection. *)
Lemma array_sort_threeWay l :
  StronglySorted newer_first (EntriesTable.array_sort threeWayByUpdatedAt l)
  ∧ ∀ updatedAt,
      filter (λ e, e_updatedAt e = updatedAt)
        (EntriesTable.array_sort threeWayByUpdatedAt l)
      = filter (λ e, e_updatedAt e = updatedAt) l.
Proof.
  split.
  - apply (array_sort_in_order _ newer_first), threeWayByUpdatedAt_negative.
  - intros updatedAt.
    set (z := {| e_id := ""; e_createdAt := ""; e_updatedAt := updatedAt;
                 e_values := ∅ |}).
    assert (∀ l' : list RowEntry, filter (λ e, e_updatedAt e = updatedAt) l'
                  = filter (λ e, newer_first e z ∧ newer_first z e) l') as Hsame.
    { intros l'. apply list_filter_iff. intros e. unfold newer_first. simpl. split.
      - intros ->. split; apply ltb_false_leb, ltb_irrefl.
      - intros [H1 H2]. by apply String.leb_antisym. }
    rewrite !Hsame.
    apply (array_sort_keeps_ties _ newer_first), threeWayByUpdatedAt_negative.
Qed.

Lemma sort_insert_sorted pivot sorted :
  StronglySorted newer_first sorted →
  StronglySorted newer_first
    (EntriesTable.sort_insert EntriesTable.byUpdatedAt pivot sorted).
Proof.
  induction 1 as [|y rest Hsorted IH Hall]; simpl.
  { repeat constructor. }
  destruct (EntriesTable.byUpdatedAt pivot y <? 0)%Z eqn:Hcmp.
  - apply byUpdatedAt_negative, ltb_false_leb in Hcmp.
    constructor; [by constructor|]. constructor; [done|].
    eapply Forall_impl; [exact Hall|]. intros z Hz. unfold newer_first in *.
    by eapply leb_trans.
  - assert (String.ltb (e_updatedAt pivot) (e_updatedAt y) = true) as Hlt.
    { destruct (String.ltb _ _) eqn:Hlt; [done|].
      apply byUpdatedAt_negative in Hlt. congruence. }
    constructor; [done|]. rewrite sort_insert_perm.
    constructor; [|done]. by apply ltb_true_leb.
Qed.

(** Whatever the array, the sorted array is in descending order of
    [updatedAt]. *)
Lemma array_sort_descending l :
  StronglySorted newer_first (EntriesTable.array_sort EntriesTable.byUpdatedAt l).
Proof.
  unfold EntriesTable.array_sort.
  assert (StronglySorted newer_first []) as Hnil by constructor.
  revert Hnil. generalize (@nil RowEntry). induction l as [|x l IH]; intros acc Hacc; simpl; [done|].
  by apply IH, sort_insert_sorted.
Qed.

(** Entries that all carry the same [updatedAt] come out in the reverse of
    the order they had. *)
Lemma array_sort_ties updatedAt l :
  (∀ e, e ∈ l → e_updatedAt e = updatedAt) →
  EntriesTable.array_sort EntriesTable.byUpdatedAt l = rev l.
Proof.
  unfold EntriesTable.array_sort. intros Hl.
  rewrite <- (app_nil_r (rev l)).
  assert (∀ e, e ∈ @nil RowEntry → e_updatedAt e = updatedAt) as Hacc
    by (intros e He; inversion He).
  revert Hacc. generalize (@nil RowEntry).
  induction l as [|x l IH]; intros acc Hacc; simpl; [done|].
  rewrite <- app_assoc. simpl. rewrite <- IH.
  - f_equal. destruct acc as [|y acc]; simpl; [done|].
    destruct (byUpdatedAt_tie x y) as [-> _]; [|done].
    rewrite (Hl x), (Hacc y); [done|by left|by left].
  - intros e He. apply Hl. by right.
  - intros e [->|He]%elem_of_cons; [apply Hl; by left|by apply Hacc].
Qed.

Section FilterFacts.
Context `{JsRuntime}.

(** A blank query (empty, or white space only) keeps every entry. *)
Lemma filteredEntries_blank fields entries filterText :
  JsString.trim filterText = "" →
  EntriesTable.filteredEntries fields entries filterText
  = EntriesTable.array_sort EntriesTable.byUpdatedAt entries.
Proof. intros Hblank. unfold EntriesTable.filteredEntries. by rewrite Hblank. Qed.

Lemma filteredEntries_blank_descending fields entries filterText :
  all_whitespace filterText = true →
  EntriesTable.filteredEntries fields entries filterText ≡ₚ entries
  ∧ StronglySorted newer_first
      (EntriesTable.filteredEntries fields entries filterText).
Proof.
  intros Hblank%trim_all_whitespace. rewrite filteredEntries_blank by done.
  split; [apply array_sort_perm|apply array_sort_descending].
Qed.

(** When the entries differ in [updatedAt] there is one descending order,
    and the blank query gives it. *)
Lemma filteredEntries_blank_strict fields entries filterText :
  all_whitespace filterText = true →
  NoDup (map e_updatedAt entries) →
  StronglySorted
    (λ a b, String.ltb (e_updatedAt b) (e_updatedAt a) = true)
    (EntriesTable.filteredEntries fields entries filterText).
Proof.
  intros Hblank Hnd.
  destruct (filteredEntries_blank_descending fields entries filterText Hblank)
    as [Hperm Hsorted].
  assert (NoDup (map e_updatedAt
            (EntriesTable.filteredEntries fields entries filterText))) as Hnd'.
  { change (NoDup (e_updatedAt <$>
              EntriesTable.filteredEntries fields entries filterText)).
    by rewrite Hperm. }
  clear Hperm. induction Hsorted as [|a l Hsorted IH Hall]; [constructor|].
  simpl in Hnd'. apply NoDup_cons in Hnd' as [Hnotin Hnd'].
  constructor; [by apply IH|].
  apply Forall_forall. intros b Hb.
  rewrite Forall_forall in Hall. specialize (Hall b Hb). unfold newer_first in Hall.
  unfold String.ltb. unfold String.leb in Hall.
  destruct (String.compare (e_updatedAt b) (e_updatedAt a)) eqn:Hcmp; [|done|done].
  apply String.compare_eq_iff in Hcmp. destruct Hnotin. rewrite <- Hcmp.
  by apply list_elem_of_fmap_2.
Qed.

Lemma matchesLookup_false fields lookup entry :
  EntriesTable.matchesLookup fields lookup entry = false
  ↔ JsString.includes (JsString.toLowerCase (e_id entry)) lookup = false
    ∧ JsString.includes (JsString.toLowerCase (e_createdAt entry)) lookup = false
    ∧ JsString.includes (JsString.toLowerCase (e_updatedAt entry)) lookup = false
    ∧ ∀ field, field ∈ fields →
        match js_get (e_values entry) (f_key field) with
        | VUndefined | VNull => True
        | value =>
            JsString.includes (JsString.toLowerCase (ToString value)) lookup = false
        end.
Proof.
  unfold EntriesTable.matchesLookup.
  destruct (JsString.includes (JsString.toLowerCase (e_id entry)) lookup);
    simpl; [by split; [|intros [? _]]|].
  destruct (JsString.includes (JsString.toLowerCase (e_createdAt entry)) lookup);
    simpl; [by split; [|intros (_ & ? & _)]|].
  destruct (JsString.includes (JsString.toLowerCase (e_updatedAt entry)) lookup);
    simpl; [by split; [|intros (_ & _ & ? & _)]|].
  rewrite <- not_true_iff_false, existsb_exists. split.
  - intros Hnone. do 3 (split; [done|]). intros field Hin%list_elem_of_In.
    destruct (js_get _ _) eqn:Hv; try done;
      apply not_true_iff_false; intros Hinc; apply Hnone; exists field;
      by rewrite Hv.
  - intros (_ & _ & _ & Hall) (field & Hin%list_elem_of_In & Hmatch).
    specialize (Hall field Hin). cbv zeta in Hmatch.
    destruct (js_get _ _); simpl in *; congruence.
Qed.

(** A query that is not blank and that no entry matches gives no entry. *)
Lemma filteredEntries_no_match fields entries filterText :
  JsString.trim filterText ≠ "" →
  (∀ entry, entry ∈ entries →
     EntriesTable.matchesLookup fields
       (JsString.toLowerCase (JsString.trim filterText)) entry = false) →
  EntriesTable.filteredEntries fields entries filterText = [].
Proof.
  intros Hquery Hnone. unfold EntriesTable.filteredEntries, JsString.truthy.
  rewrite (proj2 (String.eqb_neq _ _) Hquery). simpl.
  set (lookup := JsString.toLowerCase (JsString.trim filterText)) in *.
  assert (∀ entry, entry ∈ EntriesTable.array_sort EntriesTable.byUpdatedAt entries →
            EntriesTable.matchesLookup fields lookup entry = false) as Hsorted.
  { intros entry Hin. apply Hnone. by rewrite <- (array_sort_perm EntriesTable.byUpdatedAt). }
  induction (EntriesTable.array_sort _ entries) as [|e l IH]; simpl; [done|].
  rewrite (Hsorted e) by (by left). apply IH. intros entry Hin. apply Hsorted. by right.
Qed.
End FilterFacts.

(** * The properties at work, and where the design document departs *)

(** C1: the scenario of the design document. Renaming [email] to
    [contact-email] turns the record [{email: "a@b.com"}] into
    [{"contact-email": "a@b.com"}]. *)
Lemma C1_key_migration_witness :
  ∃ e', Page.entries
          (Page.handleUpdateField "field-email" (Sample.renameKey "contact-email")
             Sample.emailState) !! 0%nat = Some e'
    ∧ e_values e' !! "contact-email" = Some (VStr "a@b.com")
    ∧ e_values e' !! "email" = None.
Proof.
  destruct (C1_key_migration "field-email" (Sample.renameKey "contact-email")
              Sample.emailState Sample.emailField "contact-email")
    as (_ & _ & _ & Hentries & _); [reflexivity|reflexivity|done|done|].
  destruct (Hentries 0%nat Sample.emailEntry eq_refl)
    as (e' & He' & _ & _ & _ & Hmoved & _ & Hrest).
  exists e'. split; [exact He'|]. split.
  - by apply Hmoved.
  - destruct (C1_key_migration "field-email" (Sample.renameKey "contact-email")
                Sample.emailState Sample.emailField "contact-email")
      as (_ & _ & _ & _ & Hgone); [reflexivity|reflexivity|done|done|].
    apply Hgone. by eapply list_elem_of_lookup_2.
Defined.

(** C1, where the claim fails. A record that holds [null] under the old
    key (a number field saved empty) does not get [null] under the new key
    but the empty string; a record with no value for a checkbox field gets
    the empty string too, not the default [false] of that type; and a
    patch whose key is the empty string renames the field and leaves the
    record with the old key. *)
Lemma C1_counterexample :
  (e_values Sample.ageEntry !! "age" = Some VNull
   ∧ ∃ e', Page.entries
             (Page.handleUpdateField "field-age" (Sample.renameKey "years")
                Sample.ageState) = [e']
       ∧ e_values e' !! "years" = Some (VStr "")
       ∧ Some (VStr "") ≠ e_values Sample.ageEntry !! "age")
  ∧ (EntryForm.getDefaultValue Sample.subscribedField = VBool false
     ∧ ∃ e', Page.entries
               (Page.handleUpdateField "field-subscribed"
                  (Sample.renameKey "newsletter") Sample.subscribedState) = [e']
         ∧ e_values e' !! "newsletter" = Some (VStr ""))
  ∧ (map f_key
       (Page.fields
          (Page.handleUpdateField "field-age" (Sample.renameKey "")
             Sample.ageState)) = [""]
     ∧ ∃ e', Page.entries
               (Page.handleUpdateField "field-age" (Sample.renameKey "")
                  Sample.ageState) = [e']
         ∧ e_values e' !! "age" = Some VNull).
Proof.
  split; [|split].
  - split; [done|]. eexists. split; [reflexivity|]. split; done.
  - split; [done|]. eexists. split; [reflexivity|]. done.
  - split; [done|]. eexists. split; [reflexivity|]. done.
Qed.

(** A key that is the empty string is not migrated at all: the guard
    [patch.key && ...] takes it for no key, while the field still gets it. *)
Lemma handleUpdateField_empty_key fieldId patch st :
  p_key patch = Some "" →
  Page.entries (Page.handleUpdateField fieldId patch st) = Page.entries st.
Proof.
  intros Hkey. unfold Page.handleUpdateField.
  destruct (List.find _ _); [simpl|done]. by rewrite Hkey.
Qed.

(** C2 on the age field, with the runtime of the samples: the number
    input, once emptied, hands over the empty string, and 0 is stored. *)
Lemma C2_empty_string_stored_as_zero_witness :
  @EntryForm.normalizeValue Sample.runtime Sample.ageField (VStr "") = VNum zero
  ∧ @EntryForm.cleanValue Sample.runtime Sample.ageField
      (@EntryForm.normalizeValue Sample.runtime Sample.ageField (VStr ""))
    = VNum zero
  ∧ @EntryForm.cleanValue Sample.runtime Sample.ageField (VStr "") = VNull.
Proof.
  destruct (@C2_empty_string_stored_as_zero Sample.runtime Sample.ageField
              eq_refl eq_refl) as (Hform & Hstored & Hsibling & _).
  by repeat split.
Defined.

(** On a number field: a missing value gives the blank form state and is
    stored as [null], the text 42 gives the number 42, a text that is no
    number [null]. *)
Example number_field_samples :
  @EntryForm.normalizeValue Sample.runtime Sample.ageField VNull = VStr ""
  ∧ @EntryForm.cleanValue Sample.runtime Sample.ageField
      (@EntryForm.normalizeValue Sample.runtime Sample.ageField VNull) = VNull
  ∧ @EntryForm.normalizeValue Sample.runtime Sample.ageField (VStr "42")
    = VNum 42
  ∧ @EntryForm.normalizeValue Sample.runtime Sample.ageField (VStr "abc")
    = VNull.
Proof. done. Qed.


(** C4 on an email field: an array, once normalised to its text, stays
    as it is, and a symbol is normalised to its description; on the age
    field the symbol makes the normaliser raise. *)
Lemma C4_normalize_idempotent_witness :
  @EntryForm.normalizeValue_unknown Sample.runtime Sample.emailField
    (Convertible (VStr "1,2")) = Returns (VStr "1,2")
  ∧ @EntryForm.normalizeValue_unknown Sample.runtime Sample.emailField
      (Convertible (VStr "Symbol(id)")) = Returns (VStr "Symbol(id)")
  ∧ @EntryForm.normalizeValue_unknown Sample.runtime Sample.ageField
      (Symbol "id") = Throws.
Proof.
  split; [|split].
  - apply (@C4_normalize_idempotent Sample.runtime Sample.emailField
             (Convertible (VObj "1,2"))); [reflexivity|]. left. discriminate.
  - apply (@C4_normalize_idempotent Sample.runtime Sample.emailField
             (Symbol "id")); [reflexivity|]. left. discriminate.
  - apply (@C4_normalize_idempotent Sample.runtime Sample.ageField
             (Symbol "id")). reflexivity.
Defined.

(** C4, where the claim fails: on a number field a text that is no number
    gives [null], and [null] normalised again gives the empty string; and
    on a number field a symbol makes [Number()] raise. *)
Lemma C4_counterexample :
  @EntryForm.normalizeValue Sample.runtime Sample.ageField (VStr "abc") = VNull
  ∧ @EntryForm.normalizeValue Sample.runtime Sample.ageField
      (@EntryForm.normalizeValue Sample.runtime Sample.ageField (VStr "abc"))
    = VStr ""
  ∧ VStr "" ≠ VNull
  ∧ @EntryForm.normalizeValue_unknown Sample.runtime Sample.ageField
      (Symbol "id") = Throws.
Proof. done. Qed.

(** A key no record has but every object inherits is read through
    [Object.prototype]: renaming the key [constructor] stores the function
    [Object] under the new key. *)
Example migrate_inherited_key :
  e_values (Page.migrateEntry "constructor" "kind" Sample.emailEntry) !! "kind"
  = Some (VObj "function Object() { [native code] }").
Proof. reflexivity. Qed.

(** C5 on the default fields. *)
Lemma C5_unique_keys_witness :
  ∃ st', @FieldDesigner.addFields Sample.slugLib Sample.collidingDrafts Page.initialState
         = Some st'
    ∧ NoDup (map f_key (Page.fields st')).
Proof.
  apply (@C5_unique_keys Sample.slugLib Sample.collidingDrafts Page.initialState).
  apply (bool_decide_unpack _). reflexivity.
Defined.

(** The keys these additions derive. *)
Example collidingDrafts_keys :
  (λ st, map f_key (Page.fields st))
    <$> @FieldDesigner.addFields Sample.slugLib Sample.collidingDrafts Page.initialState
  = Some ["company"; "primary-contact"; "email"; "status"; "notes";
          "status-1"; "status-2"; "field-8"].
Proof. vm_compute. reflexivity. Qed.

(** C6: deleting the email field removes it and the [email] key of the
    record; deleting a field that is not there changes nothing. *)
Lemma C6_delete_field_witness :
  (∃ e', Page.entries (Page.handleDeleteField "field-email" Sample.emailState)
           !! 0%nat = Some e'
     ∧ e_values e' !! "email" = None)
  ∧ (Sample.emailField
     ∉ Page.fields (Page.handleDeleteField "field-email" Sample.emailState))
  ∧ Page.handleDeleteField "field-gone" Sample.emailState = Sample.emailState.
Proof.
  destruct (C6_delete_field "field-email" Sample.emailState) as [Hpresent _].
  destruct (Hpresent Sample.emailField eq_refl) as (Hfields & _ & _ & Hentries).
  destruct (Hentries 0%nat Sample.emailEntry eq_refl)
    as (e' & He' & _ & _ & _ & Hgone & _).
  split; [by exists e'|]. split.
  - intros Hin. by apply Hfields in Hin as [_ Hid].
  - apply (C6_delete_field "field-gone" Sample.emailState).
    apply Forall_forall. by repeat constructor.
Defined.

(** C7 at two entries updated in the same millisecond, with an empty
    query and with a blank one: the entry that came second in the
    collection comes first in the table. *)
Theorem C7_tie_order_reversed :
  @EntriesTable.filteredEntries Sample.runtime Page.DEFAULT_FIELDS
    [Sample.firstEntry; Sample.secondEntry] ""
  = [Sample.secondEntry; Sample.firstEntry]
  ∧ @EntriesTable.filteredEntries Sample.runtime Page.DEFAULT_FIELDS
      [Sample.firstEntry; Sample.secondEntry] "  "
    = [Sample.secondEntry; Sample.firstEntry]
  ∧ e_updatedAt Sample.firstEntry = e_updatedAt Sample.secondEntry
  ∧ EntriesTable.byUpdatedAt Sample.firstEntry Sample.secondEntry = (-1)%Z
  ∧ EntriesTable.byUpdatedAt Sample.secondEntry Sample.firstEntry = (-1)%Z.
Proof. repeat split. Qed.


(** The guard of [handleUpdateEntry] at work, on a state the page does not
    reach: with the id being edited that of no entry, nothing changes. *)
Example handleUpdateEntry_target_gone :
  let gone := {| Page.fields := Page.DEFAULT_FIELDS;
                 Page.entries := [Sample.emailEntry];
                 Page.editingEntryId := Some "entry-9" |} in
  Page.handleUpdateEntry "2024-06-01T09:00:00.000Z"
    {["email" := VStr "c@d.com"]} gone = gone.
Proof. reflexivity. Qed.

(** C9: a select field added to the empty list of fields, and the status
    field of the default fields saved from its editor with another options
    text. *)
Lemma C9_select_options_witness :
  (∃ st', @FieldDesigner.handleAddField Sample.slugLib
            (Sample.statusDraft "Open, Closed") "field-1" Sample.emptyState
          = Some st'
     ∧ select_has_options (Page.fields st'))
  ∧ select_has_options
      (Page.fields
         (FieldDesigner.saveField Sample.statusField
            {| FieldDesigner.localLabel := "Status";
               FieldDesigner.localPlaceholder := "";
               FieldDesigner.localHelpText := "";
               FieldDesigner.localRequired := true;
               FieldDesigner.localOptions := "Open, , Closed " |}
            Page.initialState)).
Proof.
  split.
  - destruct (@C9_select_options Sample.slugLib Sample.emptyState) as [Hadd _].
    { by intros field Hfield%elem_of_nil. }
    destruct (Hadd (Sample.statusDraft "Open, Closed") "field-1")
      as (st' & Hst' & Hinv & _).
    by exists st'.
  - destruct (@C9_select_options Sample.slugLib Page.initialState)
      as (_ & Hsave & _).
    { refine (proj1 (Forall_forall
                       (λ field, f_type field = select → is_Some (f_options field))
                       _) _).
      repeat constructor; try discriminate. intros _. by eexists. }
    apply Hsave.
    + apply (bool_decide_unpack _). reflexivity.
    + do 3 apply list_elem_of_further. apply list_elem_of_here.
Defined.

(** C9, where the claim fails: a select field added with no options
    text gets the empty options list, and so does the status field when it
    is saved with its options text cleared. *)
Lemma C9_counterexample :
  (∃ st' field,
     @FieldDesigner.handleAddField Sample.slugLib (Sample.statusDraft "")
       "field-1" Sample.emptyState = Some st'
     ∧ Page.fields st' = [field]
     ∧ f_type field = select
     ∧ f_options field = Some [])
  ∧ (∃ field,
       Page.fields
         (FieldDesigner.saveField Sample.statusField
            {| FieldDesigner.localLabel := "Status";
               FieldDesigner.localPlaceholder := "";
               FieldDesigner.localHelpText := "";
               FieldDesigner.localRequired := true;
               FieldDesigner.localOptions := " , " |}
            Page.initialState) !! 3%nat = Some field
       ∧ f_type field = select
       ∧ f_options field = Some []).
Proof.
  split.
  - do 2 eexists. repeat split.
  - eexists. repeat split.
Qed.

(** C10: saving a new label for the status field leaves the record alone. *)
Lemma C10_update_without_rename_witness :
  Page.entries
    (FieldDesigner.saveField Sample.statusField
       {| FieldDesigner.localLabel := "State";
          FieldDesigner.localPlaceholder := "";
          FieldDesigner.localHelpText := "";
          FieldDesigner.localRequired := false;
          FieldDesigner.localOptions := "Open, Closed" |}
       Sample.emailState)
  = [Sample.emailEntry].
Proof.
  apply (C10_update_without_rename "field-status"). intros target _. by left.
Defined.

(** ** Scenarios of the design document *)

(** A status chosen: the submission goes through and one record is
    created with that status. *)
Example submit_status_new :
  @EntryForm.handleSubmit Sample.runtime [Sample.statusField]
    {["status" := VStr "New"]}
  = Some {["status" := VStr "New"]}
  ∧ (e_values <$>
       Page.entries
         (Page.handleSubmitEntry "entry-1" "2024-05-01T10:00:00.000Z"
            {["status" := VStr "New"]} Sample.emptyState))
    = [ {["status" := VStr "New"]} ].
Proof. split; reflexivity. Qed.

(** A duplicate has a new id, the time of the duplication as both
    timestamps, and the values of the original. *)
Example duplicate_entry :
  Page.entries
    (Page.handleDuplicateEntry "entry-7" "2024-06-01T09:00:00.000Z"
       Sample.emailEntry Sample.emailState)
  = [ {| e_id := "entry-7"; e_createdAt := "2024-06-01T09:00:00.000Z";
         e_updatedAt := "2024-06-01T09:00:00.000Z";
         e_values := e_values Sample.emailEntry |};
      Sample.emailEntry ].
Proof. reflexivity. Qed.

(** With the comparator that answers 0 on a tie, the two entries of
    tie example keep the order of the collection. *)
Example tie_order_kept_three_way :
  EntriesTable.array_sort threeWayByUpdatedAt
    [Sample.firstEntry; Sample.secondEntry]
  = [Sample.firstEntry; Sample.secondEntry].
Proof. reflexivity. Qed.

(** The same two entries sorted with [byUpdatedAt] under the other calling
    convention keep the order of the collection: what the table shows on a
    tie depends on the engine. *)
Example tie_order_depends_on_convention :
  array_sort_late EntriesTable.byUpdatedAt [Sample.firstEntry; Sample.secondEntry]
  = [Sample.firstEntry; Sample.secondEntry]
  ∧ EntriesTable.array_sort EntriesTable.byUpdatedAt
      [Sample.firstEntry; Sample.secondEntry]
    = [Sample.secondEntry; Sample.firstEntry].
Proof. split; reflexivity. Qed.

(** A query in capitals with spaces around it finds the entry whose email
    holds it, and a query found nowhere finds nothing. *)
Example filter_by_value :
  @EntriesTable.filteredEntries Sample.runtime Page.DEFAULT_FIELDS
    [Sample.emailEntry] " A@B "
  = [Sample.emailEntry]
  ∧ @EntriesTable.filteredEntries Sample.runtime Page.DEFAULT_FIELDS
      [Sample.emailEntry] "zzz"
    = [].
Proof. split; reflexivity. Qed.

(** * Further properties of the code *)

(** ** The form: from the form values to the stored values *)




Section FormFacts.
Context `{JsRuntime}.



Lemma cleanValue_number field value :
  f_type field = number →
  EntryForm.cleanValue field value
  = match value with
    | VStr "" | VUndefined | VNull => VNull
    | _ => VNum (ToNumber value)
    end.
Proof. intros Hty. unfold EntryForm.cleanValue. by rewrite decide_True. Qed.










(** X5. Emptying a number input does not make the field blank: the empty
    text goes through [Number("")], which is 0, so the form holds 0 for the
    field, the input shows the text of 0, a required field passes the
    validation, and 0 is what gets stored. *)
Theorem X5_number_input_cleared field (formValues : EntryValues)
    (nextErrors : gmap string string) :
  f_type field = number → StringToNumber "" = zero →
  let formValues' :=
    EntryForm.updateValue field (EntryForm.numberInputChange "") formValues in
  js_get formValues' (f_key field) = VNum zero
  ∧ EntryForm.numberDisplay (js_get formValues' (f_key field))
    = NumberToString zero
  ∧ EntryForm.validate_step formValues' nextErrors field = nextErrors
  ∧ EntryForm.cleanValue field (js_get formValues' (f_key field)) = VNum zero.
Proof.
  intros Hty Hzero formValues'.
  assert (js_get formValues' (f_key field) = VNum zero) as Hvalue.
  { assert (formValues' !! f_key field
            = Some (EntryForm.normalizeValue field (VStr ""))) as Hlook
      by apply lookup_insert_eq.
    rewrite normalizeValue_number in Hlook by done.
    unfold js_get. rewrite Hlook. simpl. by rewrite Hzero. }
  split; [done|]. rewrite Hvalue. split; [done|]. split.
  - rewrite validate_step_verdict, Hvalue. unfold verdict.
    rewrite decide_False by (rewrite Hty; discriminate).
    by destruct (f_required field).
  - by rewrite cleanValue_number.
Qed.
End FormFacts.

(** ** The designer: keys, texts and options *)

(** X6. [ensureUniqueKey] always returns, with a key that is not taken:
    the base key itself when it is free, and otherwise the base key with
    the least suffix [-n], [n] from 1 up, that is free; the loop gives that
    key with any number of tests beyond the number of keys. *)
Theorem X6_ensureUniqueKey_least_suffix baseKey (existingKeys : list string) :
  ∃ key, FieldDesigner.ensureUniqueKey baseKey existingKeys = Some key
    ∧ (key ∉ existingKeys)
    ∧ ((baseKey ∉ existingKeys) → key = baseKey)
    ∧ (baseKey ∈ existingKeys →
       ∃ n, (1 ≤ n)%N ∧ key = FieldDesigner.candidateKey baseKey n
         ∧ (∀ m, (1 ≤ m < n)%N →
              FieldDesigner.candidateKey baseKey m ∈ existingKeys)
         ∧ ∀ fuel, (length existingKeys < fuel)%nat →
             FieldDesigner.ensureUniqueKey_loop fuel baseKey existingKeys 1
             = Some key).
Proof.
  destruct (ensureUniqueKey_spec baseKey existingKeys)
    as (key & Hkey & Hfree & Hcases).
  exists key. split; [done|]. split; [done|]. split.
  - intros Hbase. by destruct Hcases as [[_ ->]|[Htaken _]].
  - intros Hbase.
    destruct Hcases as [[Hnot _]|(_ & n & Hn & Hkeyn & Hbelow)]; [done|].
    exists n. split; [done|]. split; [done|]. split; [done|].
    intros fuel Hfuel.
    unfold FieldDesigner.ensureUniqueKey in Hkey.
    rewrite (proj2 (array_includes_true existingKeys baseKey) Hbase) in Hkey.
    change (FieldDesigner.ensureUniqueKey_loop (S (length existingKeys))
              baseKey existingKeys 1 = Some key) in Hkey.
    destruct (ensureUniqueKey_loop_enough fuel baseKey existingKeys 1 Hfuel)
      as [key' Hloop].
    rewrite Hloop. f_equal.
    destruct (decide (fuel ≤ S (length existingKeys))%nat).
    + apply (ensureUniqueKey_loop_fuel _ (S (length existingKeys))) in Hloop;
        [congruence|done].
    + apply (ensureUniqueKey_loop_fuel _ fuel) in Hkey; [congruence|lia].
Qed.

Lemma trimEnd_idem s : JsString.trimEnd (JsString.trimEnd s) = JsString.trimEnd s.
Proof.
  induction s as [|c s IH]; simpl; [done|].
  destruct (JsString.trimEnd s) as [|c' t] eqn:Ht.
  - destruct (JsString.is_whitespace c) eqn:Hc; simpl; [done|]. by rewrite Hc.
  - simpl. simpl in IH. by rewrite IH.
Qed.

Lemma trimStart_shape s :
  JsString.trimStart s = ""
  ∨ ∃ c s', JsString.trimStart s = String c s' ∧ JsString.is_whitespace c = false.
Proof.
  induction s as [|c s IH]; simpl; [by left|].
  destruct (JsString.is_whitespace c) eqn:Hc; [done|]. right. by exists c, s.
Qed.

Lemma trimEnd_head c s :
  JsString.is_whitespace c = false →
  ∃ t, JsString.trimEnd (String c s) = String c t.
Proof.
  intros Hc. simpl. destruct (JsString.trimEnd s); [|by eexists].
  rewrite Hc. by eexists.
Qed.

(** [trim] twice is [trim] once. *)
Lemma trim_idem s : JsString.trim (JsString.trim s) = JsString.trim s.
Proof.
  unfold JsString.trim.
  destruct (trimStart_shape s) as [->|(c & s' & -> & Hc)]; [done|].
  destruct (trimEnd_head c s' Hc) as [t Ht]. rewrite Ht.
  simpl JsString.trimStart. rewrite Hc. rewrite <- Ht. apply trimEnd_idem.
Qed.

Lemma trim_tidy s : JsString.trim s ≠ "" → tidy (JsString.trim s).
Proof. intros Hne. split; [done|apply trim_idem]. Qed.

Lemma truthy_true s : JsString.truthy s = true ↔ s ≠ "".
Proof. unfold JsString.truthy. by rewrite negb_true_iff, String.eqb_neq. Qed.

Lemma orUndefined_trim_tidy s :
  tidy_option (FieldDesigner.orUndefined (JsString.trim s)).
Proof.
  unfold FieldDesigner.orUndefined.
  destruct (JsString.truthy _) eqn:Ht; [|done].
  by apply trim_tidy, truthy_true.
Qed.

Lemma canSubmit_true draft :
  FieldDesigner.canSubmit draft = true →
  JsString.trim (FieldDesigner.d_label draft) ≠ "".
Proof.
  unfold FieldDesigner.canSubmit. intros Hlen Hempty.
  by rewrite Hempty in Hlen.
Qed.

Lemma contains_char_trimStart c s :
  contains_char c s = false → contains_char c (JsString.trimStart s) = false.
Proof.
  induction s as [|c' s IH]; simpl; [done|].
  intros [Hc Hs]%orb_false_iff.
  destruct (JsString.is_whitespace c'); [by apply IH|].
  simpl. by rewrite Hc, Hs.
Qed.

Lemma contains_char_trimEnd c s :
  contains_char c s = false → contains_char c (JsString.trimEnd s) = false.
Proof.
  induction s as [|c' s IH]; simpl; [done|].
  intros [Hc Hs]%orb_false_iff. specialize (IH Hs).
  destruct (JsString.trimEnd s) as [|c'' t].
  - destruct (JsString.is_whitespace c'); simpl; [done|]. by rewrite Hc.
  - simpl. simpl in IH. by rewrite Hc, IH.
Qed.

Lemma contains_char_trim c s :
  contains_char c s = false → contains_char c (JsString.trim s) = false.
Proof. intros Hs. by apply contains_char_trimEnd, contains_char_trimStart. Qed.

(** The pieces [split] cuts at a character do not hold it. *)
Lemma split_pieces sep s piece :
  piece ∈ JsString.split sep s → contains_char sep piece = false.
Proof.
  revert piece. induction s as [|c s IH]; intros piece; simpl.
  { by intros ->%list_elem_of_singleton. }
  destruct (Ascii.eqb c sep) eqn:Hc.
  - intros [->|Hin]%elem_of_cons; [done|by apply IH].
  - destruct (JsString.split sep s) as [|w ws].
    + intros ->%list_elem_of_singleton. simpl. by rewrite Hc.
    + intros [->|Hin]%elem_of_cons.
      * simpl. rewrite Hc. apply IH. by left.
      * apply IH. by right.
Qed.

Lemma parseOptions_tidy text : tidy_options (FieldDesigner.parseOptions text).
Proof.
  intros o Ho. pose proof Ho as [Hne (raw & Hraw & ->)]%parseOptions_items.
  split; [by apply trim_tidy|].
  by apply contains_char_trim, (split_pieces _ text).
Qed.

Lemma split_one sep s :
  contains_char sep s = false → JsString.split sep s = [s].
Proof.
  induction s as [|c s IH]; simpl; [done|].
  intros [Hc Hs]%orb_false_iff. by rewrite Hc, IH.
Qed.

Lemma split_piece_then sep piece rest :
  contains_char sep piece = false →
  JsString.split sep (piece +:+ String sep rest)
  = piece :: JsString.split sep rest.
Proof.
  induction piece as [|c piece IH]; simpl.
  { intros _. by rewrite Ascii.eqb_refl. }
  intros [Hc Hs]%orb_false_iff. by rewrite Hc, IH.
Qed.

(** What [split] makes of the text [join] made. *)
Lemma split_concat o (opts : list string) :
  (∀ x, x ∈ o :: opts → contains_char "," x = false) →
  JsString.split "," (String.concat ", " (o :: opts))
  = o :: map (String " ") opts.
Proof.
  revert o. induction opts as [|o2 opts IH]; intros o Hfree.
  { simpl. apply split_one, Hfree. by left. }
  change (String.concat ", " (o :: o2 :: opts))
    with (o +:+ String "," (String " " (String.concat ", " (o2 :: opts)))).
  rewrite split_piece_then by (apply Hfree; by left).
  f_equal. change (JsString.split "," (String " " ?z))
    with (match JsString.split "," z with
          | w :: ws => String " " w :: ws
          | [] => [String " " EmptyString]
          end).
  rewrite IH; [done|]. intros x Hx. apply Hfree. by right.
Qed.

Lemma parseOptions_concat (opts : list string) :
  tidy_options opts →
  FieldDesigner.parseOptions (String.concat ", " opts) = opts.
Proof.
  intros Hopts. unfold FieldDesigner.parseOptions.
  destruct opts as [|o opts]; [done|].
  rewrite split_concat by (intros x Hx; by apply Hopts).
  assert (∀ l : list string,
            (∀ x, x ∈ l → tidy x) →
            List.filter JsString.truthy l = l) as Hkeep.
  { induction l as [|x l IHl]; intros Hl; simpl; [done|].
    rewrite (proj2 (truthy_true x)) by (apply Hl; by left).
    rewrite IHl; [done|]. intros y Hy. apply Hl. by right. }
  assert (map JsString.trim (o :: map (String " ") opts) = o :: opts) as ->.
  { simpl. f_equal; [apply Hopts; by left|].
    rewrite map_map. rewrite <- (map_id opts) at 2. apply map_ext_in.
    intros x Hx%list_elem_of_In.
    change (JsString.trim (String " " x)) with (JsString.trim x).
    apply Hopts. by right. }
  apply Hkeep. intros x Hx. by apply Hopts.
Qed.

(** X8. The options text the editor shows for a list of tidy options
    (joined with a comma and a space) is read back as that list, and what
    is read from any options text is a list of tidy options: reading,
    showing and reading again gives the same list. *)
Theorem X8_options_text_round_trip (opts : list string) (text : string) :
  (tidy_options opts →
   FieldDesigner.parseOptions (String.concat ", " opts) = opts)
  ∧ tidy_options (FieldDesigner.parseOptions text)
  ∧ FieldDesigner.parseOptions
      (String.concat ", " (FieldDesigner.parseOptions text))
    = FieldDesigner.parseOptions text.
Proof.
  split; [apply parseOptions_concat|]. split; [apply parseOptions_tidy|].
  apply parseOptions_concat, parseOptions_tidy.
Qed.

Section DesignerFacts.
Context `{SlugLib}.

Lemma handleSave_designer_made field local :
  designer_made field →
  designer_made (Page.applyPatch field (FieldDesigner.handleSave field local)).
Proof.
  intros (Hlabel & Hplace & Hhelp & Hopts).
  split; [|split; [|split]]; simpl.
  - destruct (JsString.truthy _) eqn:Ht; [|done].
    by apply trim_tidy, truthy_true.
  - apply orUndefined_trim_tidy.
  - apply orUndefined_trim_tidy.
  - intros Hsel. rewrite decide_True by done. eexists. split; [done|].
    apply parseOptions_tidy.
Qed.

(** X7. The designer keeps its fields tidy: if every field has a trimmed,
    non-empty label, a placeholder and a help text that are absent or
    trimmed and non-empty, and (for a select field) options that are
    trimmed, non-empty and without a comma, then so has every field after
    any field is added (to any list of fields, the empty one included)
    and, the ids being distinct, after any field of the list is saved from
    its editor, whatever was typed. The field saved gets the label typed,
    trimmed, and keeps the label it had when the label typed is blank. *)
Theorem X7_designer_keeps_fields_tidy st :
  (∀ f, f ∈ Page.fields st → designer_made f) →
  (∀ draft newId,
     ∃ st', FieldDesigner.handleAddField draft newId st = Some st'
       ∧ ∀ f, f ∈ Page.fields st' → designer_made f)
  ∧ (∀ field local,
       NoDup (map f_id (Page.fields st)) → field ∈ Page.fields st →
       (∀ f, f ∈ Page.fields (FieldDesigner.saveField field local st) →
          designer_made f)
       ∧ ∀ saved,
           saved ∈ Page.fields (FieldDesigner.saveField field local st) →
           f_id saved = f_id field →
           f_label saved
           = (if decide (JsString.trim (FieldDesigner.localLabel local) = "")
              then f_label field
              else JsString.trim (FieldDesigner.localLabel local))).
Proof.
  intros Hinv. split.
  - intros draft newId. unfold FieldDesigner.handleAddField.
    destruct (FieldDesigner.canSubmit draft) eqn:Hcan; simpl; [|by eauto].
    unfold FieldDesigner.deriveKey.
    match goal with
    | |- context [FieldDesigner.ensureUniqueKey ?b ?ks] =>
        destruct (ensureUniqueKey_spec b ks) as (key & -> & _)
    end.
    simpl. eexists. split; [done|]. simpl.
    intros f [Hf| ->%list_elem_of_singleton]%elem_of_app; [by apply Hinv|].
    split; [|split; [|split]]; simpl.
    + by apply trim_tidy, canSubmit_true.
    + apply orUndefined_trim_tidy.
    + apply orUndefined_trim_tidy.
    + intros Hsel. rewrite decide_True by done. eexists. split; [done|].
      apply parseOptions_tidy.
  - intros field local Hids Hfield. split.
    + intros g' Hg'.
      destruct (saveField_elem_unique field local st g' Hids Hfield Hg')
        as [[_ ->]|[_ Hold]]; [|by apply Hinv].
      by apply handleSave_designer_made, Hinv.
    + intros saved Hsaved Hid.
      destruct (saveField_elem_unique field local st saved Hids Hfield Hsaved)
        as [[_ ->]|[Hne _]]; [|done].
      simpl. unfold JsString.truthy.
      destruct (String.eqb_spec (JsString.trim (FieldDesigner.localLabel local)) "")
        as [Heq|Hneq]; simpl.
      * by rewrite decide_True.
      * by rewrite decide_False.
Qed.
End DesignerFacts.

Lemma tidy_option_round_trip o :
  tidy_option o →
  FieldDesigner.orUndefined (JsString.trim (default "" o)) = o.
Proof.
  destruct o as [s|]; simpl; [|done].
  intros [Hne Htrim]. rewrite Htrim. unfold FieldDesigner.orUndefined.
  by rewrite (proj2 (truthy_true s)).
Qed.

Lemma openEditor_handleSave field :
  designer_made field →
  Page.applyPatch field
    (FieldDesigner.handleSave field (FieldDesigner.openEditor field))
  = field.
Proof.
  intros ([Hne Htrim] & Hplace & Hhelp & Hopts).
  destruct field as [fid lbl key ty req place help opts]. simpl in *.
  unfold Page.applyPatch, FieldDesigner.handleSave. simpl.
  rewrite Htrim, (proj2 (truthy_true lbl)) by done.
  rewrite !tidy_option_round_trip by done.
  f_equal. case_decide as Hsel; [|done].
  destruct (Hopts Hsel) as (l & -> & Hl). f_equal.
  by apply parseOptions_concat.
Qed.

Lemma find_field_present (fs : list DataEntryField) field :
  field ∈ fs →
  ∃ target, List.find (λ f, String.eqb (f_id f) (f_id field)) fs = Some target.
Proof.
  intros Hin. destruct (List.find _ fs) as [target|] eqn:Hfind; [by eexists|].
  by destruct (proj1 (find_field_None fs (f_id field)) Hfind field Hin).
Qed.

Lemma map_fixed {A : Type} (h : A → A) (l : list A) :
  (∀ x, x ∈ l → h x = x) → map h l = l.
Proof.
  intros Hfix. rewrite <- (map_id l) at 2. apply map_ext_in.
  intros x Hx%list_elem_of_In. by apply Hfix.
Qed.

(** X9. Opening the editor of a tidy field and saving without a change
    leaves the whole state as it was: the label, the placeholder, the help
    text and the options all come back from the texts of the editor. *)
Theorem X9_save_unchanged_noop st field :
  designer_made field →
  field ∈ Page.fields st →
  NoDup (map f_id (Page.fields st)) →
  FieldDesigner.saveField field (FieldDesigner.openEditor field) st = st.
Proof.
  intros Hmade Hin Hids.
  unfold FieldDesigner.saveField, Page.handleUpdateField.
  destruct (find_field_present (Page.fields st) field Hin) as [target ->].
  simpl. rewrite map_fixed; [by destruct st|].
  intros g Hg. destruct (String.eqb_spec (f_id g) (f_id field)) as [Hid|]; [|done].
  assert (g = field) as ->
    by exact (same_image_same_element f_id _ g field Hids Hg Hin Hid).
  by apply openEditor_handleSave.
Qed.

(** ** Renaming a key there and back *)

Lemma find_field_map (h : DataEntryField → DataEntryField) fs fieldId :
  (∀ f, f_id (h f) = f_id f) →
  List.find (λ f, String.eqb (f_id f) fieldId) (map h fs)
  = h <$> List.find (λ f, String.eqb (f_id f) fieldId) fs.
Proof.
  intros Hid. induction fs as [|f fs IH]; simpl; [done|].
  rewrite Hid. by destruct (String.eqb (f_id f) fieldId).
Qed.

Lemma migrateEntry_back a b entry v :
  a ≠ b →
  e_values entry !! a = Some v → v ≠ VNull → v ≠ VUndefined →
  e_values entry !! b = None →
  Page.migrateEntry b a (Page.migrateEntry a b entry) = entry.
Proof.
  intros Hab Ha Hnull Hundef Hb. destruct entry as [eid created updated values].
  unfold Page.migrateEntry. simpl in *. f_equal.
  assert (nullish (js_get values a) (VStr "") = v) as Hv.
  { unfold js_get. rewrite Ha. by destruct v. }
  rewrite Hv. unfold js_get at 1. rewrite lookup_insert_eq. simpl.
  assert (nullish v (VStr "") = v) as -> by (by destruct v).
  apply map_eq. intros k.
  destruct (decide (k = a)) as [->|Hka]; [by rewrite lookup_insert_eq|].
  rewrite lookup_insert_ne by done.
  destruct (decide (k = b)) as [->|Hkb]; [by rewrite lookup_delete_eq|].
  by rewrite lookup_delete_ne, lookup_insert_ne, lookup_delete_ne.
Qed.

(** X10. Renaming the key of a field from [a] to [b] and then back to [a]
    gives every record back as it was, provided [a] and [b] are two
    non-empty keys and every record held a value other than [null] under
    [a] and nothing under [b]. *)
Theorem X10_rename_round_trip fieldId (there back : FieldPatch) st target b :
  List.find (λ field, String.eqb (f_id field) fieldId) (Page.fields st)
  = Some target →
  p_key there = Some b → p_id there = None →
  p_key back = Some (f_key target) →
  b ≠ "" → f_key target ≠ "" → b ≠ f_key target →
  (∀ e, e ∈ Page.entries st →
     e_values e !! b = None
     ∧ ∃ v, e_values e !! f_key target = Some v ∧ v ≠ VNull ∧ v ≠ VUndefined) →
  Page.entries
    (Page.handleUpdateField fieldId back
       (Page.handleUpdateField fieldId there st))
  = Page.entries st.
Proof.
  intros Hfind Hthere Hid Hback Hb Ha Hab Hentries.
  assert (∀ x y : string, x ≠ "" → x ≠ y →
            JsString.truthy x && negb (String.eqb x y) = true) as Hguard.
  { intros x y Hx Hxy.
    by rewrite (proj2 (truthy_true x)), (proj2 (String.eqb_neq x y)). }
  unfold Page.handleUpdateField at 2. rewrite Hfind, Hthere, Hguard by done.
  unfold Page.handleUpdateField. simpl.
  rewrite (find_field_map
             (λ field, if String.eqb (f_id field) fieldId
                       then Page.applyPatch field there else field)).
  2: { intros f. destruct (String.eqb (f_id f) fieldId); [|done].
       unfold Page.applyPatch. simpl. by rewrite Hid. }
  rewrite Hfind. simpl.
  apply find_field_Some in Hfind as [_ Htarget].
  rewrite (proj2 (String.eqb_eq _ _) Htarget), Hback. simpl.
  rewrite Hthere. simpl. rewrite Hguard by done.
  rewrite map_map. apply map_fixed. intros e He.
  destruct (Hentries e He) as (Hnone & v & Hv & Hnull & Hundef).
  by apply (migrateEntry_back _ _ _ v).
Qed.

(** ** The table: what a search returns *)

Lemma filter_submseteq {A : Type} (f : A → bool) (l : list A) :
  List.filter f l ⊆+ l.
Proof.
  induction l as [|x l IH]; simpl; [done|].
  destruct (f x); [by apply submseteq_skip|by apply submseteq_cons].
Qed.

Lemma filter_sorted {A : Type} (R : relation A) (f : A → bool) (l : list A) :
  StronglySorted R l → StronglySorted R (List.filter f l).
Proof.
  induction 1 as [|x l Hsorted IH Hall]; simpl; [constructor|].
  destruct (f x); [|done]. constructor; [done|].
  apply Forall_forall. intros y Hy%list_elem_of_In.
  apply filter_In in Hy as [Hy%list_elem_of_In _].
  rewrite Forall_forall in Hall. by apply Hall.
Qed.

Lemma includes_self s : JsString.includes s s = true.
Proof.
  assert (String.prefix s s = true) as Hprefix.
  { induction s as [|c s IH]; simpl; [done|].
    destruct (ascii_dec c c); [done|congruence]. }
  destruct s; simpl in *; [done|]. by rewrite Hprefix.
Qed.

Lemma ltb_leb_absurd s1 s2 :
  String.ltb s1 s2 = true → String.leb s2 s1 = true → False.
Proof.
  unfold String.ltb, String.leb. rewrite (String.compare_antisym s1 s2).
  by destruct (String.compare s2 s1).
Qed.

Section TableFacts.
Context `{JsRuntime}.

Lemma filteredEntries_elem (fields : list DataEntryField)
    (entries : list RowEntry) (filterText : string) entry :
  entry ∈ EntriesTable.filteredEntries fields entries filterText
  ↔ entry ∈ entries
    ∧ (JsString.trim filterText = ""
       ∨ EntriesTable.matchesLookup fields
           (JsString.toLowerCase (JsString.trim filterText)) entry = true).
Proof.
  unfold EntriesTable.filteredEntries.
  pose proof (array_sort_perm EntriesTable.byUpdatedAt entries) as Hperm.
  destruct (JsString.truthy (JsString.trim filterText)) eqn:Hq; simpl.
  - apply truthy_true in Hq.
    rewrite list_elem_of_In, filter_In, <- list_elem_of_In, Hperm.
    split; [intros [? ?]; auto|]. by intros [? [?|?]].
  - unfold JsString.truthy in Hq. apply negb_false_iff, String.eqb_eq in Hq.
    rewrite Hperm. split; [auto|by intros [? _]].
Qed.

(** X11. Whatever the query, the table shows entries of the collection
    only, none more often than the collection holds it, in descending
    order of [updatedAt]; and an entry of the collection is shown exactly
    when the query is blank or the entry matches it. *)
Theorem X11_filter_membership (fields : list DataEntryField)
    (entries : list RowEntry) (filterText : string) :
  let shown := EntriesTable.filteredEntries fields entries filterText in
  shown ⊆+ entries
  ∧ StronglySorted newer_first shown
  ∧ ∀ entry, entry ∈ shown
      ↔ entry ∈ entries
        ∧ (JsString.trim filterText = ""
           ∨ EntriesTable.matchesLookup fields
               (JsString.toLowerCase (JsString.trim filterText)) entry = true).
Proof.
  intros shown. split; [|split; [|apply filteredEntries_elem]];
    subst shown; unfold EntriesTable.filteredEntries;
    pose proof (array_sort_perm EntriesTable.byUpdatedAt entries) as Hperm;
    pose proof (array_sort_descending entries) as Hsorted;
    destruct (JsString.truthy (JsString.trim filterText)); simpl.
  - rewrite <- Hperm at 2. apply filter_submseteq.
  - by rewrite Hperm.
  - by apply filter_sorted.
  - done.
Qed.

Lemma matchesLookup_by_id fields entry :
  EntriesTable.matchesLookup fields (JsString.toLowerCase (e_id entry)) entry
  = true.
Proof.
  unfold EntriesTable.matchesLookup. by rewrite includes_self.
Qed.

Lemma matchesLookup_by_value fields entry field :
  field ∈ fields →
  js_get (e_values entry) (f_key field) ≠ VUndefined →
  js_get (e_values entry) (f_key field) ≠ VNull →
  EntriesTable.matchesLookup fields
    (JsString.toLowerCase (ToString (js_get (e_values entry) (f_key field))))
    entry = true.
Proof.
  intros Hin Hu Hn. apply not_false_iff_true.
  intros (_ & _ & _ & Hall)%matchesLookup_false.
  specialize (Hall field Hin).
  destruct (js_get (e_values entry) (f_key field)); try done;
    by rewrite includes_self in Hall.
Qed.

(** X12. An entry of the collection is found by its own id, and by the
    full text of any cell the table shows as text, provided the text
    searched for is not empty and has no white space around it. A cell of
    a checkbox field is shown as a badge, Yes or No, and the entry is
    found by what is stored, [true] or [false], not by what is shown. *)
Theorem X12_found_by_shown_text (fields : list DataEntryField)
    (entries : list RowEntry) entry :
  entry ∈ entries →
  (tidy (e_id entry) →
   entry ∈ EntriesTable.filteredEntries fields entries (e_id entry))
  ∧ (∀ field content,
       field ∈ fields →
       EntriesTable.CellValue (f_type field)
         (js_get (e_values entry) (f_key field)) = EntriesTable.Text content →
       tidy content →
       entry ∈ EntriesTable.filteredEntries fields entries content)
  ∧ ∀ field b,
      field ∈ fields → f_type field = checkbox →
      js_get (e_values entry) (f_key field) = VBool b →
      EntriesTable.CellValue (f_type field)
        (js_get (e_values entry) (f_key field)) = EntriesTable.Badge b
      ∧ entry ∈ EntriesTable.filteredEntries fields entries
                  (if b then "true" else "false").
Proof.
  intros Hin. split; [|split].
  - intros [Hne Htrim]. apply filteredEntries_elem. split; [done|].
    right. rewrite Htrim. apply matchesLookup_by_id.
  - intros field content Hfield Hcell [Hne Htrim].
    apply filteredEntries_elem. split; [done|]. right. rewrite Htrim.
    assert (js_get (e_values entry) (f_key field) ≠ VUndefined
            ∧ js_get (e_values entry) (f_key field) ≠ VNull
            ∧ content = ToString (js_get (e_values entry) (f_key field)))
      as (Hu & Hn & ->).
    { unfold EntriesTable.CellValue in Hcell.
      destruct (js_get (e_values entry) (f_key field)) as [| | | |s|];
        try done; try (destruct s; [done|]);
        (case_decide; [done|]); by injection Hcell as <-. }
    by apply matchesLookup_by_value.
  - intros field b Hfield Hty Hvalue. split.
    + rewrite Hvalue. unfold EntriesTable.CellValue. by rewrite decide_True.
    + apply filteredEntries_elem. split; [done|]. right.
      pose proof (matchesLookup_by_value fields entry field Hfield) as Hmatch.
      rewrite Hvalue in Hmatch. by destruct b; apply Hmatch.
Qed.

(** X20. After a submission made at a time later than the [updatedAt] of
    every entry, whether it created an entry or updated the one being
    edited, the first row of the table under a blank query is an entry
    with that time as [updatedAt] and the submitted values. *)
Theorem X20_submitted_entry_first (fields : list DataEntryField)
    (newId now : string) (values : EntryValues) st (filterText : string) :
  (∀ e, e ∈ Page.entries st → String.ltb (e_updatedAt e) now = true) →
  all_whitespace filterText = true →
  ∃ first,
    head (EntriesTable.filteredEntries fields
            (Page.entries (Page.handleSubmitEntry newId now values st))
            filterText) = Some first
    ∧ e_updatedAt first = now
    ∧ e_values first = values.
Proof.
  intros Hearlier Hblank%trim_all_whitespace.
  rewrite filteredEntries_blank by done.
  set (after := Page.entries (Page.handleSubmitEntry newId now values st)).
  assert (∃ x, x ∈ after ∧ e_updatedAt x = now ∧ e_values x = values) as Hfresh.
  { subst after. unfold Page.handleSubmitEntry.
    destruct (Page.editingEntry st) as [target|] eqn:Hedit.
    - unfold Page.handleUpdateEntry. rewrite Hedit. simpl.
      apply editingEntry_Some in Hedit as [Hin _].
      eexists. split.
      + apply elem_of_map. exists target. split; [|done].
        by rewrite String.eqb_refl.
      + done.
    - simpl. eexists. split; [by left|done]. }
  assert (∀ x, x ∈ after →
            (e_updatedAt x = now ∧ e_values x = values)
            ∨ String.ltb (e_updatedAt x) now = true) as Hall.
  { subst after. unfold Page.handleSubmitEntry.
    destruct (Page.editingEntry st) as [target|] eqn:Hedit.
    - unfold Page.handleUpdateEntry. rewrite Hedit. simpl.
      intros x (e & -> & He)%elem_of_map.
      destruct (String.eqb (e_id e) (e_id target)); [by left|].
      right. by apply Hearlier.
    - simpl. intros x [->|Hx]%elem_of_cons; [by left|].
      right. by apply Hearlier. }
  pose proof (array_sort_perm EntriesTable.byUpdatedAt after) as Hperm.
  pose proof (array_sort_descending after) as Hsorted.
  destruct (EntriesTable.array_sort EntriesTable.byUpdatedAt after)
    as [|h tl] eqn:Hshown.
  { destruct Hfresh as (x & Hx & _). rewrite <- Hperm in Hx. inversion Hx. }
  exists h. split; [done|].
  destruct (Hall h) as [Hh|Hh]; [rewrite <- Hperm; by left|done|].
  exfalso. destruct Hfresh as (x & Hx & Hnow & _).
  rewrite <- Hperm in Hx. apply elem_of_cons in Hx as [->|Hx].
  - rewrite Hnow in Hh. by rewrite ltb_irrefl in Hh.
  - apply StronglySorted_inv in Hsorted as [_ Htl].
    rewrite Forall_forall in Htl. specialize (Htl x Hx).
    unfold newer_first in Htl. rewrite Hnow in Htl.
    by apply (ltb_leb_absurd _ _ Hh).
Qed.
End TableFacts.

(** ** The page: what its actions keep *)

(** What an action can do to the list of entries: rewrite values in place,
    rewrite the entries with one id with a new [updatedAt] and new values,
    put a new entry in front, or drop entries. *)
Lemma step_entries action st :
  (∃ h, (∀ e, entry_stamp (h e) = entry_stamp e)
      ∧ Page.entries (Page.step action st) = map h (Page.entries st))
  ∨ (∃ newId now values target,
       action = Page.SubmitEntry newId now values
       ∧ target ∈ Page.entries st
       ∧ Page.entries (Page.step action st)
         = map (λ e, if String.eqb (e_id e) (e_id target)
                     then {| e_id := e_id e; e_createdAt := e_createdAt e;
                             e_updatedAt := now; e_values := values |}
                     else e)
             (Page.entries st))
  ∨ (∃ newId now values,
       (action = Page.SubmitEntry newId now values
        ∨ ∃ entry, action = Page.DuplicateEntry newId now entry)
       ∧ Page.entries (Page.step action st)
         = {| e_id := newId; e_createdAt := now; e_updatedAt := now;
              e_values := values |} :: Page.entries st)
  ∨ (∃ keep, Page.entries (Page.step action st)
             = List.filter keep (Page.entries st)).
Proof.
  assert (∀ l : list RowEntry,
            ∃ h, (∀ e, entry_stamp (h e) = entry_stamp e) ∧ l = map h l) as Hsame.
  { intros l. exists (λ e, e). split; [done|]. by rewrite map_id. }
  destruct action; simpl.
  - left. apply Hsame.
  - left. unfold Page.handleUpdateField.
    destruct (List.find _ _) as [target|]; [simpl|apply Hsame].
    destruct (p_key patch) as [newKey|]; [|apply Hsame].
    destruct (_ && _); [|apply Hsame].
    by exists (Page.migrateEntry (f_key target) newKey).
  - left. unfold Page.handleDeleteField.
    destruct (List.find _ _) as [target|]; [simpl|apply Hsame].
    by exists (Page.dropKey (f_key target)).
  - unfold Page.handleSubmitEntry.
    destruct (Page.editingEntry st) as [target|] eqn:Hedit.
    + right; left. unfold Page.handleUpdateEntry. rewrite Hedit. simpl.
      apply editingEntry_Some in Hedit as [Hin _].
      exists newId, now, values, target. auto.
    + right; right; left. simpl. exists newId, now, values. auto.
  - unfold Page.handleDeleteEntry.
    destruct confirmed; simpl; [|left; apply Hsame].
    right; right; right. by eexists.
  - right; right; left. exists newId, now, (e_values entry). split; [|done].
    right. by eexists.
  - unfold Page.handleClearEntries.
    destruct (Page.entries st) as [|e l] eqn:Hentries.
    { left. rewrite Hentries. apply Hsame. }
    destruct confirmed; simpl.
    + right; right; right. exists (λ _, false). simpl.
      clear Hentries. induction l as [|x l IH]; simpl; [done|exact IH].
    + left. rewrite Hentries. apply Hsame.
  - left. apply Hsame.
  - left. apply Hsame.
Qed.

Lemma filter_NoDup_map {A B : Type} (proj : A → B) (keep : A → bool) (l : list A) :
  NoDup (map proj l) → NoDup (map proj (List.filter keep l)).
Proof.
  induction l as [|x l IH]; simpl; [done|].
  intros [Hnotin Hnd]%NoDup_cons. destruct (keep x); simpl; [|by apply IH].
  apply NoDup_cons. split; [|by apply IH].
  intros (y & Hxy & Hy)%elem_of_map. apply Hnotin.
  apply elem_of_map. exists y. split; [done|].
  apply list_elem_of_In in Hy. apply filter_In in Hy as [Hy _].
  by apply list_elem_of_In.
Qed.

Lemma map_stamp_id (h : RowEntry → RowEntry) (l : list RowEntry) :
  (∀ e, entry_stamp (h e) = entry_stamp e) →
  map entry_stamp (map h l) = map entry_stamp l.
Proof. intros Hh. rewrite map_map. by apply map_ext. Qed.

Lemma map_id_of_stamp (l l' : list RowEntry) :
  map entry_stamp l' = map entry_stamp l → map e_id l' = map e_id l.
Proof.
  intros Hstamp.
  assert (∀ k : list RowEntry, map e_id k = map (λ s, s.1.1) (map entry_stamp k))
    as Hid by (intros k; by rewrite map_map).
  by rewrite !Hid, Hstamp.
Qed.

(** X13. In every state the page can reach from a state where the entry
    being edited (if any) is in the list, the entry being edited is in the
    list: the form is in its editing mode exactly when an entry has been
    picked, and a submission then updates that entry. *)
Theorem X13_editing_target_reachable start st :
  editing_target_present start →
  Page.reachable start st →
  editing_target_present st
  ∧ (is_Some (Page.editingEntry st) ↔ is_Some (Page.editingEntryId st))
  ∧ ∀ newId now values,
      is_Some (Page.editingEntryId st) →
      Page.handleSubmitEntry newId now values st
      = Page.handleUpdateEntry now values st.
Proof.
  intros Hstart Hreach.
  pose proof (reachable_editing_target start st Hstart Hreach) as Hinv.
  assert (is_Some (Page.editingEntryId st) → is_Some (Page.editingEntry st))
    as Hsome.
  { intros [targetId Hid]. destruct (Page.editingEntry st) eqn:Hedit; [done|].
    destruct (Hinv targetId Hid) as (e & Hin & He).
    destruct (proj1 (editingEntry_None st) Hedit e Hin). by rewrite He. }
  split; [done|]. split.
  - split; [|done]. intros [target Hedit].
    apply editingEntry_Some in Hedit as [_ Hid]. by eexists.
  - intros newId now values [target Hedit]%Hsome.
    unfold Page.handleSubmitEntry. by rewrite Hedit.
Qed.

(** X14. No action of the page makes two entries share an id, as long as
    the id generator hands out an id that no entry has. *)
Theorem X14_entry_ids_unique action st :
  NoDup (map e_id (Page.entries st)) →
  fresh_entry_id action st →
  NoDup (map e_id (Page.entries (Page.step action st))).
Proof.
  intros Hnd Hfresh.
  destruct (step_entries action st)
    as [(h & Hh & ->)
       |[(newId & now & values & target & -> & _ & ->)
        |[(newId & now & values & Haction & ->)|(keep & ->)]]].
  - by rewrite (map_id_of_stamp _ _ (map_stamp_id h _ Hh)).
  - rewrite map_map.
    rewrite (map_ext _ e_id); [done|].
    intros e. by destruct (String.eqb _ _).
  - simpl. apply NoDup_cons. split; [|done].
    by destruct Haction as [->|[entry ->]].
  - by apply filter_NoDup_map.
Qed.

(** X15. No action of the page leaves an entry whose [updatedAt] is before
    its [createdAt], as long as the clock of a submission is not behind
    the creation time of an entry. *)
Theorem X15_timestamps_ordered action st :
  (∀ e, e ∈ Page.entries st →
     String.leb (e_createdAt e) (e_updatedAt e) = true) →
  clock_not_behind action st →
  ∀ e, e ∈ Page.entries (Page.step action st) →
    String.leb (e_createdAt e) (e_updatedAt e) = true.
Proof.
  intros Hinv Hclock e.
  destruct (step_entries action st)
    as [(h & Hh & ->)
       |[(newId & now & values & target & -> & _ & ->)
        |[(newId & now & values & Haction & ->)|(keep & ->)]]].
  - intros (e0 & -> & He0)%elem_of_map.
    pose proof (Hh e0) as [= _ -> ->]. by apply Hinv.
  - intros (e0 & -> & He0)%elem_of_map.
    destruct (String.eqb _ _); [simpl|by apply Hinv]. by apply Hclock.
  - intros [->|He]%elem_of_cons; [simpl|by apply Hinv].
    apply ltb_false_leb, ltb_irrefl.
  - intros He%list_elem_of_In. apply filter_In in He as [He%list_elem_of_In _].
    by apply Hinv.
Qed.

(** X16. An action on the schema (adding, patching or deleting a field)
    creates, drops, reorders and re-dates no entry and leaves alone which
    entry is being edited; every other action leaves the fields as they
    are. *)
Theorem X16_schema_and_entries_apart action st :
  match action with
  | Page.AddField _ | Page.UpdateField _ _ | Page.DeleteField _ =>
      map entry_stamp (Page.entries (Page.step action st))
      = map entry_stamp (Page.entries st)
      ∧ Page.editingEntryId (Page.step action st) = Page.editingEntryId st
  | _ => Page.fields (Page.step action st) = Page.fields st
  end.
Proof.
  destruct action; simpl; try done.
  - unfold Page.handleUpdateField.
    destruct (List.find _ _) as [target|]; [simpl|done]. split; [|done].
    destruct (p_key patch) as [newKey|]; [|done].
    destruct (_ && _); [|done]. by apply map_stamp_id.
  - unfold Page.handleDeleteField.
    destruct (List.find _ _) as [target|]; [simpl|done]. split; [|done].
    by apply map_stamp_id.
  - unfold Page.handleSubmitEntry, Page.handleUpdateEntry.
    by destruct (Page.editingEntry st).
  - unfold Page.handleDeleteEntry. by destruct confirmed.
  - unfold Page.handleClearEntries.
    destruct (Page.entries st); [done|]. by destruct confirmed.
Qed.

Lemma filter_filter_same {A : Type} (keep : A → bool) (l : list A) :
  List.filter keep (List.filter keep l) = List.filter keep l.
Proof.
  induction l as [|x l IH]; simpl; [done|].
  destruct (keep x) eqn:Hx; simpl; [|done]. by rewrite Hx, IH.
Qed.

(** X17. Deleting is idempotent: deleting a field, deleting an entry or
    clearing the entries a second time changes nothing more. *)
Theorem X17_delete_idempotent fieldId confirmed entry st :
  Page.handleDeleteField fieldId (Page.handleDeleteField fieldId st)
  = Page.handleDeleteField fieldId st
  ∧ Page.handleDeleteEntry confirmed entry
      (Page.handleDeleteEntry confirmed entry st)
    = Page.handleDeleteEntry confirmed entry st
  ∧ Page.handleClearEntries confirmed (Page.handleClearEntries confirmed st)
    = Page.handleClearEntries confirmed st.
Proof.
  split; [|split].
  - unfold Page.handleDeleteField at 2 3.
    destruct (List.find _ (Page.fields st)) as [target|] eqn:Hfind.
    + unfold Page.handleDeleteField. simpl.
      rewrite (proj2 (find_field_None _ fieldId)); [done|].
      intros field Hin%list_elem_of_In.
      apply filter_In in Hin as [_ Hid].
      by apply negb_true_iff, String.eqb_neq in Hid.
    + unfold Page.handleDeleteField. by rewrite Hfind.
  - unfold Page.handleDeleteEntry. destruct confirmed; simpl; [|done].
    rewrite filter_filter_same. f_equal.
    destruct (Page.editingEntryId st) as [target|]; [|done].
    destruct (String.eqb target (e_id entry)) eqn:Heq; [done|]. by rewrite Heq.
  - unfold Page.handleClearEntries.
    destruct (Page.entries st) as [|e l] eqn:Hentries; [by rewrite Hentries|].
    destruct confirmed; simpl; [done|]. by rewrite Hentries.
Qed.

(** ** The storage hook *)

Section StorageFacts.
Context {T : Type} (parse : string → option T) (stringify : T → string).

(** X18. The first render of the hook writes nothing to the storage and
    always ends hydrated. Its value is the stored item parsed when the
    storage can be read, holds a non-empty item and the item parses; in
    every other case (the read throws, there is no item, the item is the
    empty string, the item does not parse) it is the initial value. *)
Theorem X18_hydration (initialValue : T) (storage : UseLocalStorage.Storage) :
  let after :=
    UseLocalStorage.commit parse stringify
      (UseLocalStorage.initialHook initialValue) storage in
  after.2 = storage
  ∧ UseLocalStorage.hydrated after.1 = true
  ∧ (∀ item parsed,
       UseLocalStorage.readable storage = true →
       UseLocalStorage.stored storage = Some item → item ≠ "" →
       parse item = Some parsed →
       UseLocalStorage.value after.1 = parsed)
  ∧ (UseLocalStorage.readable storage = false
     ∨ UseLocalStorage.stored storage = None
     ∨ UseLocalStorage.stored storage = Some ""
     ∨ (∃ item, UseLocalStorage.stored storage = Some item ∧ parse item = None) →
     UseLocalStorage.value after.1 = initialValue).
Proof.
  intros after. subst after. simpl.
  split; [done|]. split; [done|]. split.
  - intros item parsed -> -> Hitem ->.
    by rewrite (proj2 (truthy_true item)).
  - intros [->|[->|[->|(item & -> & ->)]]]; try done.
    + by destruct (UseLocalStorage.readable storage).
    + by destruct (UseLocalStorage.readable storage).
    + destruct (UseLocalStorage.readable storage); [|done].
      by destruct (JsString.truthy item).
Qed.

(** X19. What a hydrated hook holds is what the next start of the page
    gets: after a render whose write went through, a fresh hook that reads
    the storage takes the value written, for every value that
    [JSON.stringify] turns into a text [JSON.parse] turns back into it. *)
Theorem X19_reload_round_trip (st : UseLocalStorage.HookState)
    (storage : UseLocalStorage.Storage) (initialValue : T) :
  UseLocalStorage.hydrated st = true →
  UseLocalStorage.writable storage = true →
  UseLocalStorage.readable storage = true →
  parse (stringify (UseLocalStorage.value st)) = Some (UseLocalStorage.value st) →
  stringify (UseLocalStorage.value st) ≠ "" →
  let saved := (UseLocalStorage.commit parse stringify st storage).2 in
  UseLocalStorage.stored saved = Some (stringify (UseLocalStorage.value st))
  ∧ (UseLocalStorage.commit parse stringify
       (UseLocalStorage.initialHook initialValue) saved).1
    = st.
Proof.
  intros Hhydrated Hwritable Hreadable Hparse Hnonempty saved. subst saved.
  unfold UseLocalStorage.commit, UseLocalStorage.persistEffect. simpl.
  rewrite Hhydrated, Hwritable. simpl. split; [done|].
  unfold UseLocalStorage.hydrateEffect. simpl.
  rewrite Hreadable, (proj2 (truthy_true _) Hnonempty), Hparse.
  destruct st as [v h]. simpl in *. by rewrite Hhydrated.
Qed.
End StorageFacts.

(** ** The designer: additions and the open editor *)

Section DesignerStateFacts.
Context `{SlugLib}.

(** X21. Adding a field through the designer always returns; it leaves
    every entry and every field there was as it is and in its place, and
    either adds nothing (the label is blank) or appends one field, with the
    id given, the type and the required flag of the draft, the trimmed
    label, and a key that no field had. *)
Theorem X21_add_field_appends draft newId st :
  ∃ st', FieldDesigner.handleAddField draft newId st = Some st'
    ∧ Page.entries st' = Page.entries st
    ∧ Page.editingEntryId st' = Page.editingEntryId st
    ∧ ((JsString.trim (FieldDesigner.d_label draft) = "" ∧ st' = st)
       ∨ (JsString.trim (FieldDesigner.d_label draft) ≠ ""
          ∧ ∃ field, Page.fields st' = Page.fields st ++ [field]
              ∧ f_id field = newId
              ∧ f_label field = JsString.trim (FieldDesigner.d_label draft)
              ∧ f_type field = FieldDesigner.d_type draft
              ∧ f_required field = FieldDesigner.d_required draft
              ∧ (f_key field ∉ map f_key (Page.fields st)))).
Proof.
  unfold FieldDesigner.handleAddField.
  destruct (FieldDesigner.canSubmit draft) eqn:Hcan; simpl.
  - unfold FieldDesigner.deriveKey.
    match goal with
    | |- context [FieldDesigner.ensureUniqueKey ?b ?ks] =>
        destruct (ensureUniqueKey_spec b ks) as (key & -> & Hfree & _)
    end.
    simpl. eexists. split; [done|]. split; [done|]. split; [done|].
    right. split; [by apply canSubmit_true|].
    eexists. split; [done|]. by simpl.
  - exists st. split; [done|]. split; [done|]. split; [done|]. left.
    split; [|done]. unfold FieldDesigner.canSubmit in Hcan.
    by destruct (JsString.trim (FieldDesigner.d_label draft)).
Qed.

(** X22. The editor of the designer is never left open on a field that is
    gone: if the field whose editor is open is in the list, it still is
    after a field is added, after the open or any other field is saved,
    after an editor is opened or closed on a field of the list, and after
    a field is deleted (which closes the editor if it was open on it). *)
Theorem X22_editor_target_present (editingFieldId : option string) st
    draft newId field local fieldId :
  editor_target_present editingFieldId (Page.fields st) →
  field ∈ Page.fields st →
  (∀ st', FieldDesigner.handleAddField draft newId st = Some st' →
     editor_target_present editingFieldId (Page.fields st'))
  ∧ editor_target_present editingFieldId
      (Page.fields (FieldDesigner.saveField field local st))
  ∧ editor_target_present (FieldDesigner.toggleEdit field editingFieldId)
      (Page.fields st)
  ∧ editor_target_present
      (FieldDesigner.handleDeleteField fieldId editingFieldId st).1
      (Page.fields (FieldDesigner.handleDeleteField fieldId editingFieldId st).2).
Proof.
  intros Hinv Hfield. split; [|split; [|split]].
  - intros st' Hadd open Hopen. destruct (Hinv open Hopen) as (f & Hf & Hid).
    destruct (handleAddField_fields draft newId st)
      as (st'' & Hadd' & _ & [[_ Hsame]|(_ & new & Hfields & _)]);
      rewrite Hadd in Hadd'; injection Hadd' as <-.
    + exists f. by rewrite Hsame.
    + exists f. rewrite Hfields. split; [|done]. apply elem_of_app. by left.
  - intros open Hopen. destruct (Hinv open Hopen) as (f & Hf & Hid).
    apply list_elem_of_lookup_1 in Hf as [i Hi].
    eexists. split.
    + eapply list_elem_of_lookup_2. by apply saveField_fields.
    + by case_decide.
  - intros open Hopen. exists field. split; [done|].
    unfold FieldDesigner.toggleEdit in Hopen.
    destruct editingFieldId as [o|]; [|by injection Hopen].
    destruct (String.eqb o (f_id field)); [done|by injection Hopen].
  - simpl. intros open Hopen.
    destruct editingFieldId as [o|]; [|done].
    destruct (String.eqb_spec o fieldId) as [|Hne]; [done|].
    injection Hopen as <-. destruct (Hinv o eq_refl) as (f & Hf & Hid).
    exists f. split; [|done]. unfold Page.handleDeleteField.
    destruct (List.find _ _); [simpl|done].
    rewrite list_elem_of_In, filter_In, <- list_elem_of_In.
    split; [done|]. rewrite negb_true_iff, String.eqb_neq. congruence.
Qed.
End DesignerStateFacts.

(** ** The further properties at work *)




(** X5 on the age field: the number input emptied, the form holds 0. *)
Lemma X5_number_input_cleared_witness :
  js_get
    (@EntryForm.updateValue Sample.runtime Sample.ageField
       (@EntryForm.numberInputChange Sample.runtime "") ∅) "age"
  = VNum zero
  ∧ @EntryForm.cleanValue Sample.runtime Sample.ageField
      (js_get
         (@EntryForm.updateValue Sample.runtime Sample.ageField
            (@EntryForm.numberInputChange Sample.runtime "") ∅) "age")
    = VNum zero.
Proof.
  destruct (@X5_number_input_cleared Sample.runtime Sample.ageField ∅ ∅
              eq_refl eq_refl) as (Hform & _ & _ & Hstored).
  by split.
Defined.

Lemma default_fields_designer_made :
  ∀ f, f ∈ Page.DEFAULT_FIELDS → designer_made f.
Proof.
  assert (∀ o, o ∈ ["New"; "In Review"; "Approved"; "Archived"] →
            tidy o ∧ contains_char "," o = false) as Hopts.
  { intros o Ho. repeat (apply elem_of_cons in Ho as [->|Ho]);
      [..|by apply elem_of_nil in Ho]; by repeat split. }
  intros f Hf. repeat (apply elem_of_cons in Hf as [->|Hf]);
    [..|by apply elem_of_nil in Hf];
    (split; [by split|]); (split; [by simpl|]); (split; [by simpl|]);
    simpl; try discriminate.
  intros _. by eexists.
Qed.

(** X7: a field added to the empty list of fields with texts that have
    white space around them; and the status field of the default fields
    saved with a blank label and a ragged options text, which leaves it
    tidy and with the label it had. *)
Lemma X7_designer_keeps_fields_tidy_witness :
  (∃ st', @FieldDesigner.handleAddField Sample.slugLib
            (Sample.statusDraft " Open ,, Closed ") "field-1" Sample.emptyState
          = Some st'
     ∧ ∀ f, f ∈ Page.fields st' → designer_made f)
  ∧ (∀ f, f ∈ Page.fields
              (FieldDesigner.saveField Sample.statusField
                 {| FieldDesigner.localLabel := "  ";
                    FieldDesigner.localPlaceholder := " pick one ";
                    FieldDesigner.localHelpText := "";
                    FieldDesigner.localRequired := true;
                    FieldDesigner.localOptions := " New ,Done,, " |}
                 Page.initialState) →
       designer_made f)
  ∧ ∃ saved,
      Page.fields
        (FieldDesigner.saveField Sample.statusField
           {| FieldDesigner.localLabel := "  ";
              FieldDesigner.localPlaceholder := " pick one ";
              FieldDesigner.localHelpText := "";
              FieldDesigner.localRequired := true;
              FieldDesigner.localOptions := " New ,Done,, " |}
           Page.initialState) !! 3%nat = Some saved
      ∧ f_label saved = "Status".
Proof.
  split.
  - destruct (@X7_designer_keeps_fields_tidy Sample.slugLib Sample.emptyState)
      as [Hadd _].
    { by intros f Hf%elem_of_nil. }
    apply Hadd.
  - destruct (@X7_designer_keeps_fields_tidy Sample.slugLib Page.initialState
                default_fields_designer_made) as [_ Hsave].
    destruct (Hsave Sample.statusField
                {| FieldDesigner.localLabel := "  ";
                   FieldDesigner.localPlaceholder := " pick one ";
                   FieldDesigner.localHelpText := "";
                   FieldDesigner.localRequired := true;
                   FieldDesigner.localOptions := " New ,Done,, " |})
      as [Htidy Hlabel].
    + apply (bool_decide_unpack _). reflexivity.
    + do 3 apply list_elem_of_further. apply list_elem_of_here.
    + split; [exact Htidy|]. eexists. split; [reflexivity|].
      apply Hlabel; [|reflexivity].
      do 3 apply list_elem_of_further. apply list_elem_of_here.
Defined.

(** X9 on the default fields: the status field saved as its editor opens
    leaves the state as it is. *)
Lemma X9_save_unchanged_noop_witness :
  FieldDesigner.saveField Sample.statusField
    (FieldDesigner.openEditor Sample.statusField) Page.initialState
  = Page.initialState.
Proof.
  apply X9_save_unchanged_noop.
  - apply default_fields_designer_made.
    do 3 apply list_elem_of_further. apply list_elem_of_here.
  - do 3 apply list_elem_of_further. apply list_elem_of_here.
  - apply (bool_decide_unpack _). reflexivity.
Defined.

(** X10 on the entry with an email address: [email] renamed to
    [contact-email] and back. *)
Lemma X10_rename_round_trip_witness :
  Page.entries
    (Page.handleUpdateField "field-email" (Sample.renameKey "email")
       (Page.handleUpdateField "field-email" (Sample.renameKey "contact-email")
          Sample.emailState))
  = [Sample.emailEntry].
Proof.
  apply (X10_rename_round_trip "field-email" (Sample.renameKey "contact-email")
           (Sample.renameKey "email") Sample.emailState Sample.emailField
           "contact-email"); try done.
  intros e ->%list_elem_of_singleton. split; [done|].
  by exists (VStr "a@b.com").
Defined.

(** X12 on the entry with an email address: it is found by its id and by
    the address the table shows. *)
Lemma X12_found_by_shown_text_witness :
  Sample.emailEntry
  ∈ @EntriesTable.filteredEntries Sample.runtime Page.DEFAULT_FIELDS
      [Sample.emailEntry] "entry-1"
  ∧ Sample.emailEntry
    ∈ @EntriesTable.filteredEntries Sample.runtime Page.DEFAULT_FIELDS
        [Sample.emailEntry] "a@b.com".
Proof.
  destruct (@X12_found_by_shown_text Sample.runtime Page.DEFAULT_FIELDS
              [Sample.emailEntry] Sample.emailEntry) as (Hid & Hcell & _).
  { apply list_elem_of_here. }
  split.
  - apply Hid. by split.
  - apply (Hcell Sample.emailField "a@b.com").
    + do 2 apply list_elem_of_further. apply list_elem_of_here.
    + reflexivity.
    + by split.
Defined.

(** An entry with a ticked checkbox shows Yes in its cell; it is found by
    [true] and not by [Yes]. *)
Example checkbox_found_by_stored_value :
  @EntriesTable.CellValue Sample.runtime checkbox
    (js_get (e_values Sample.tickedEntry) "subscribed")
  = EntriesTable.Badge true
  ∧ @EntriesTable.filteredEntries Sample.runtime [Sample.subscribedField]
      [Sample.tickedEntry] "true" = [Sample.tickedEntry]
  ∧ @EntriesTable.filteredEntries Sample.runtime [Sample.subscribedField]
      [Sample.tickedEntry] "Yes" = [].
Proof. repeat split. Qed.

(** A text field keeps a number that is not finite, where a number field
    stores [null]. *)
Example text_field_keeps_infinity :
  @EntryForm.cleanValue Sample.runtime Sample.emailField
    (@EntryForm.normalizeValue Sample.runtime Sample.emailField (VNum infinity))
  = VNum infinity
  ∧ @EntryForm.cleanValue Sample.runtime Sample.ageField
      (@EntryForm.normalizeValue Sample.runtime Sample.ageField (VNum infinity))
    = VNull.
Proof. repeat split. Qed.

(** X13 after the entry being edited was duplicated: it is still the one
    a submission updates. *)
Lemma X13_editing_target_reachable_witness :
  Page.handleSubmitEntry "entry-3" "2024-06-01T09:00:00.000Z"
    {["email" := VStr "c@d.com"]} Sample.duplicatedState
  = Page.handleUpdateEntry "2024-06-01T09:00:00.000Z"
      {["email" := VStr "c@d.com"]} Sample.duplicatedState.
Proof.
  destruct (X13_editing_target_reachable Sample.emailState
              Sample.duplicatedState) as (_ & _ & Hsubmit).
  - intros targetId [= <-]. exists Sample.emailEntry.
    split; [apply list_elem_of_here|done].
  - apply Page.reachable_step; [apply Page.reachable_start|exact I].
  - apply Hsubmit. by eexists.
Defined.

(** X14 on the same duplication: the two entries have two ids. *)
Lemma X14_entry_ids_unique_witness :
  NoDup (map e_id (Page.entries Sample.duplicatedState)).
Proof.
  apply (X14_entry_ids_unique
           (Page.DuplicateEntry "entry-2" "2024-05-03T12:00:00.000Z"
              Sample.emailEntry) Sample.emailState).
  - apply (bool_decide_unpack _). reflexivity.
  - simpl. intros Hin%list_elem_of_singleton. discriminate Hin.
Defined.

(** X15 on a later submission for the entry being edited. *)
Lemma X15_timestamps_ordered_witness :
  ∃ e, Page.entries
         (Page.step
            (Page.SubmitEntry "entry-3" "2024-06-01T09:00:00.000Z"
               {["email" := VStr "c@d.com"]}) Sample.emailState)
       !! 0%nat = Some e
    ∧ String.leb (e_createdAt e) (e_updatedAt e) = true.
Proof.
  eexists. split; [reflexivity|].
  apply (X15_timestamps_ordered
           (Page.SubmitEntry "entry-3" "2024-06-01T09:00:00.000Z"
              {["email" := VStr "c@d.com"]}) Sample.emailState).
  - by intros e ->%list_elem_of_singleton.
  - by intros e ->%list_elem_of_singleton.
  - apply list_elem_of_here.
Defined.

(** X19 on a boolean kept under the key: saved by one run of the page and
    read by the next. *)
Lemma X19_reload_round_trip_witness :
  (UseLocalStorage.commit Sample.parseBool Sample.stringifyBool
     (UseLocalStorage.initialHook false)
     (UseLocalStorage.commit Sample.parseBool Sample.stringifyBool
        {| UseLocalStorage.value := true; UseLocalStorage.hydrated := true |}
        Sample.emptyStorage).2).1
  = {| UseLocalStorage.value := true; UseLocalStorage.hydrated := true |}.
Proof.
  by apply (X19_reload_round_trip Sample.parseBool Sample.stringifyBool
              {| UseLocalStorage.value := true; UseLocalStorage.hydrated := true |}
              Sample.emptyStorage false).
Defined.

(** X20 on the entry being edited, saved a month later. *)
Lemma X20_submitted_entry_first_witness :
  ∃ first,
    head (@EntriesTable.filteredEntries Sample.runtime Page.DEFAULT_FIELDS
            (Page.entries
               (Page.handleSubmitEntry "entry-3" "2024-06-01T09:00:00.000Z"
                  {["email" := VStr "c@d.com"]} Sample.duplicatedState))
            " ") = Some first
    ∧ e_updatedAt first = "2024-06-01T09:00:00.000Z"
    ∧ e_values first = {["email" := VStr "c@d.com"]}.
Proof.
  apply (@X20_submitted_entry_first Sample.runtime); [|reflexivity].
  intros e He. repeat (apply elem_of_cons in He as [->|He]);
    [..|by apply elem_of_nil in He]; reflexivity.
Defined.

(** X22 on the default fields with the editor open on the status field:
    deleting that field closes the editor. *)
Lemma X22_editor_target_present_witness :
  (FieldDesigner.handleDeleteField "field-status" (Some "field-status")
     Page.initialState).1 = None
  ∧ editor_target_present
      (FieldDesigner.handleDeleteField "field-notes" (Some "field-status")
         Page.initialState).1
      (Page.fields
         (FieldDesigner.handleDeleteField "field-notes" (Some "field-status")
            Page.initialState).2).
Proof.
  split; [reflexivity|].
  apply (@X22_editor_target_present Sample.slugLib (Some "field-status")
           Page.initialState FieldDesigner.DEFAULT_DRAFT "field-6"
           Sample.statusField (FieldDesigner.openEditor Sample.statusField)
           "field-notes").
  - intros open [= <-]. exists Sample.statusField. split; [|done].
    do 3 apply list_elem_of_further. apply list_elem_of_here.
  - do 3 apply list_elem_of_further. apply list_elem_of_here.
Defined.
